(** * LIP (Logisim Importer Project): the circuit transfer engine

    A shallow embedding of [Logisim_Importer_Project.py]: the class
    [CircuitTransfer] (locating a [<circuit>] by name, copying it from the
    source project into the destination project, saving), the batch loop of
    [main], and the parts of Python's [xml.etree] that those methods call
    ([ElementPath.find], [Element.get/set/append/remove], [copy.deepcopy]).

    Strings are Python [str] values over code points below 256, one
    [ascii] per code point. *)

From Stdlib Require Import String Ascii List Bool Arith ZArith Lia.
From Stdlib Require Import DecimalString.
Import ListNotations.
Set Warnings "-register-all".
Open Scope list_scope.
Open Scope string_scope.

(** ** Python values, exceptions and results *)

Module Py.

(** The messages [ElementPath] gives to the [SyntaxError]s it raises. *)
Inductive xpath_error : Type :=
| PrefixNotFound (prefix : string)  (* "prefix %r not found in prefix map" *)
| AbsolutePath                      (* "cannot use absolute path on element" *)
| InvalidPath                       (* "invalid path" *)
| InvalidDescendant                 (* "invalid descendant" *)
| InvalidPredicate                  (* "invalid predicate" *)
| PositionExpected                  (* "XPath position >= 1 expected" *)
| UnsupportedFunction               (* "unsupported function" *)
| UnsupportedExpression             (* "unsupported expression" *)
| NegativeOffsetExpected.           (* "XPath offset from last() must be negative" *)

(** The exceptions the program and the library calls it makes can raise. *)
Inductive exn : Type :=
| TypeError (msg : string)
| ValueError (msg : string)
| FileNotFoundError (msg : string)
| OSError (msg : string)
| SyntaxError (e : xpath_error)
| KeyError (key : string).

(** A call either returns a value or raises. *)
Inductive result (A : Type) : Type :=
| Ok (a : A)
| Raise (e : exn).
Arguments Ok {A} a.
Arguments Raise {A} e.

Definition bind {A B : Type} (r : result A) (k : A -> result B) : result B :=
  match r with
  | Ok a => k a
  | Raise e => Raise e
  end.

(** The arguments a caller can pass where the code expects a path. *)
Inductive value : Type :=
| PyNone
| PyStr (s : string)
| PyInt (z : Z).

(** [isinstance(v, str)] *)
Definition is_str (v : value) : bool :=
  match v with PyStr _ => true | _ => false end.

(** [v is None] *)
Definition is_None (v : value) : bool :=
  match v with PyNone => true | _ => false end.

Definition str1 (c : ascii) : string := String c EmptyString.

(** The double quote character, code point 34. *)
Definition dquote : ascii := "034"%char.

Definition char_in (c : ascii) (s : string) : bool :=
  existsb (Ascii.eqb c) (list_ascii_of_string s).

(** [c.isspace()], which is also the class [\s] of [re] on [str]: the code
    points 9-13, 28-32, 133 and 160. *)
Definition isspace (c : ascii) : bool :=
  let n := nat_of_ascii c in
  ((9 <=? n)%nat && (n <=? 13)%nat) || ((28 <=? n)%nat && (n <=? 32)%nat)
  || (n =? 133)%nat || (n =? 160)%nat.

(** [c.isdigit()] on code points below 256, the class [\d] *)
Definition isdigit (c : ascii) : bool :=
  let n := nat_of_ascii c in (48 <=? n)%nat && (n <=? 57)%nat.

Fixpoint lstrip (p : ascii -> bool) (s : string) : string :=
  match s with
  | String c s' => if p c then lstrip p s' else s
  | EmptyString => EmptyString
  end.

Fixpoint rstrip (p : ascii -> bool) (s : string) : string :=
  match s with
  | String c s' =>
      match rstrip p s' with
      | EmptyString => if p c then EmptyString else String c EmptyString
      | r => String c r
      end
  | EmptyString => EmptyString
  end.

(** [s.strip()] *)
Definition strip (s : string) : string := rstrip isspace (lstrip isspace s).

(** [s.strip(chars)] *)
Definition strip_chars (chars s : string) : string :=
  rstrip (fun c => char_in c chars) (lstrip (fun c => char_in c chars) s).

(** [s[1:-1]] *)
Fixpoint drop_last (s : string) : string :=
  match s with
  | String c EmptyString => EmptyString
  | String c s' => String c (drop_last s')
  | EmptyString => EmptyString
  end.

Definition slice_1_m1 (s : string) : string :=
  match s with
  | String _ s' => drop_last s'
  | EmptyString => EmptyString
  end.

(** [s.startswith(p)] and [s.endswith(p)] *)
Definition startswith (s p : string) : bool := String.prefix p s.

Fixpoint endswith (s p : string) : bool :=
  String.eqb s p ||
  match s with
  | String _ s' => endswith s' p
  | EmptyString => false
  end.

(** [s[n:]] *)
Fixpoint drop (n : nat) (s : string) : string :=
  match n, s with
  | S n', String _ s' => drop n' s'
  | _, _ => s
  end.

End Py.

Import Py.

(** ** The token scanner of [xml.etree.ElementPath] *)

Module ElementPath_tokens.

(** A token is the pair [(ttype, tag)] of the two groups of
    [xpath_tokenizer_re]. *)
Definition token : Type := string * string.

(** [[^/\[\]\(\)@!=\s]] *)
Definition name_char (c : ascii) : bool :=
  negb (char_in c "/[]()@!=" || isspace c).

(** The longest prefix of [s] whose characters satisfy [p], and the rest. *)
Fixpoint span (p : ascii -> bool) (s : string) : string * string :=
  match s with
  | String c s' =>
      if p c then let (a, b) := span p s' in (String c a, b)
      else (EmptyString, s)
  | EmptyString => (EmptyString, EmptyString)
  end.

(** [[^q]*q]: the characters before the first [q], and what follows it. *)
Fixpoint until (q : ascii) (s : string) : option (string * string) :=
  match s with
  | String c s' =>
      if Ascii.eqb c q then Some (EmptyString, s')
      else match until q s' with
           | Some (a, b) => Some (String c a, b)
           | None => None
           end
  | EmptyString => None
  end.

(** The first alternative of the pattern at the head of [s]: a quote
    character (single or double), any characters other than that quote,
    and the same quote again. *)
Definition match_quoted (s : string) : option (token * string) :=
  match s with
  | String q s' =>
      if Ascii.eqb q "'" || Ascii.eqb q dquote then
        match until q s' with
        | Some (body, rest) => Some ((str1 q ++ body ++ str1 q, ""), rest)
        | None => None
        end
      else None
  | EmptyString => None
  end.

(** [::|//?|\.\.|\(\)|!=|[/.*:\[\]\(\)@=]] at the head of [s] *)
Definition match_punct (s : string) : option (token * string) :=
  match s with
  | String ":" (String ":" r) => Some (("::", ""), r)
  | String "/" (String "/" r) => Some (("//", ""), r)
  | String "/" r => Some (("/", ""), r)
  | String "." (String "." r) => Some (("..", ""), r)
  | String "(" (String ")" r) => Some (("()", ""), r)
  | String "!" (String "=" r) => Some (("!=", ""), r)
  | String c r =>
      if char_in c "/.*:[]()@=" then Some ((str1 c, ""), r) else None
  | EmptyString => None
  end.

(** [[^/\[\]\(\)@!=\s]+] at the head of [s] *)
Definition match_run (s : string) : option (string * string) :=
  match span name_char s with
  | (EmptyString, _) => None
  | (run, rest) => Some (run, rest)
  end.

(** [(?:\{[^}]+\})?[^/\[\]\(\)@!=\s]+] at the head of [s]: with the
    braces when both parts match, without them otherwise. *)
Definition match_name (s : string) : option (token * string) :=
  let plain :=
    match match_run s with
    | Some (run, rest) => Some (("", run), rest)
    | None => None
    end in
  match s with
  | String "{" s' =>
      match until "}" s' with
      | Some (String b body, after) =>
          match match_run after with
          | Some (run, rest) =>
              Some (("", "{" ++ String b body ++ "}" ++ run), rest)
          | None => plain
          end
      | _ => plain
      end
  | _ => plain
  end.

(** [\s+] at the head of [s] *)
Definition match_space (s : string) : option (token * string) :=
  match span isspace s with
  | (EmptyString, _) => None
  | (_, rest) => Some (("", ""), rest)
  end.

(** One match of [xpath_tokenizer_re] at the head of [s]: the
    alternatives in the order of the pattern. *)
Definition match_token (s : string) : option (token * string) :=
  match match_quoted s with
  | Some r => Some r
  | None =>
    match match_punct s with
    | Some r => Some r
    | None =>
      match match_name s with
      | Some r => Some r
      | None => match_space s
      end
    end
  end.

(** [xpath_tokenizer_re.findall(pattern)]: the matches from left to
    right; a character where nothing matches is skipped.  Every match is
    at least one character long, so the length of the pattern is fuel
    enough. *)
Fixpoint scan (fuel : nat) (s : string) : list token :=
  match fuel with
  | O => []
  | S fuel' =>
      match s with
      | EmptyString => []
      | String _ s' =>
          match match_token s with
          | Some (t, rest) => t :: scan fuel' rest
          | None => scan fuel' s'
          end
      end
  end.

Definition findall (pattern : string) : list token :=
  scan (String.length pattern) pattern.

(** [tag.split(":", 1)[0]] *)
Definition prefix_of (tag : string) : string :=
  match until ":" tag with
  | Some (p, _) => p
  | None => tag
  end.

(** [xpath_tokenizer(pattern)] with [namespaces=None]: the generator
    yields the tokens, and raises at the first name token that has a
    prefix ([a:b], not starting with a brace).  The list ends at the item
    that raises. *)
Fixpoint check_prefixes (ts : list token) : list (result token) :=
  match ts with
  | [] => []
  | (ttype, tag) :: ts' =>
      match tag with
      | EmptyString => Ok (ttype, tag) :: check_prefixes ts'
      | String c _ =>
          if negb (Ascii.eqb c "{") && char_in ":" tag
          then [Raise (SyntaxError (PrefixNotFound (prefix_of tag)))]
          else Ok (ttype, tag) :: check_prefixes ts'
      end
  end.

Definition xpath_tokenizer (pattern : string) : list (result token) :=
  check_prefixes (findall pattern).

End ElementPath_tokens.

(** ** Elements of [xml.etree.ElementTree]

    An element is a Python object: two elements with equal fields are
    still two objects, and [Element.remove] and the selectors of
    [ElementPath] compare elements by identity ([is]).  The field [eid]
    is that identity: the address of the object.  A mutation of the
    object [i] is seen by every tree that holds a node with identity [i]
    (see [mutate]); a tree built by the parser or by [copy.deepcopy]
    holds fresh objects only. *)

Module ElementTree.

Local Open Scope list_scope.

Inductive Element : Type :=
| mkElement (eid : nat) (tag : string) (attrib : list (string * string))
            (text tail : option string) (children : list Element).

Definition eid (e : Element) : nat :=
  match e with mkElement i _ _ _ _ _ => i end.
Definition tag (e : Element) : string :=
  match e with mkElement _ t _ _ _ _ => t end.
Definition attrib (e : Element) : list (string * string) :=
  match e with mkElement _ _ a _ _ _ => a end.
Definition text (e : Element) : option string :=
  match e with mkElement _ _ _ x _ _ => x end.
Definition tail (e : Element) : option string :=
  match e with mkElement _ _ _ _ x _ => x end.
Definition children (e : Element) : list Element :=
  match e with mkElement _ _ _ _ _ cs => cs end.

(** What a document says, whichever objects hold it: the element
    without the identities.  This is what the parser reads and what
    [ElementTree.write] serializes. *)
Inductive Xml : Type :=
| mkXml (xtag : string) (xattrib : list (string * string))
        (xtext xtail : option string) (xchildren : list Xml).

Fixpoint content (e : Element) : Xml :=
  match e with
  | mkElement _ t a x y cs => mkXml t a x y (map content cs)
  end.

(** The attribute dictionary keeps insertion order. *)
Fixpoint dict_get (k : string) (d : list (string * string)) : option string :=
  match d with
  | [] => None
  | (k', v) :: d' => if String.eqb k' k then Some v else dict_get k d'
  end.

Fixpoint dict_set (k v : string) (d : list (string * string))
  : list (string * string) :=
  match d with
  | [] => [(k, v)]
  | (k', v') :: d' =>
      if String.eqb k' k then (k', v) :: d' else (k', v') :: dict_set k v d'
  end.

(** [elem.get(key)] *)
Definition get (e : Element) (key : string) : option string :=
  dict_get key (attrib e).

(** [elem.set(key, value)] *)
Definition set (e : Element) (key value : string) : Element :=
  match e with
  | mkElement i t a x y cs => mkElement i t (dict_set key value a) x y cs
  end.

(** [elem.append(sub)] *)
Definition append (e sub : Element) : Element :=
  match e with
  | mkElement i t a x y cs => mkElement i t a x y (cs ++ [sub])
  end.

(** The list without its first element that is the object [i]. *)
Fixpoint remove_first (i : nat) (cs : list Element) : option (list Element) :=
  match cs with
  | [] => None
  | c :: cs' =>
      if Nat.eqb (eid c) i then Some cs'
      else match remove_first i cs' with
           | Some r => Some (c :: r)
           | None => None
           end
  end.

(** [elem.remove(sub)]: by identity; [ValueError] when [sub] is no
    child of [elem]. *)
Definition remove (e sub : Element) : result Element :=
  match e with
  | mkElement i t a x y cs =>
      match remove_first (eid sub) cs with
      | Some cs' => Ok (mkElement i t a x y cs')
      | None => Raise (ValueError "list.remove(x): x not in list")
      end
  end.

(** [elem.iter()]: the element and its descendants in document order. *)
Fixpoint iter (e : Element) : list Element :=
  match e with
  | mkElement _ _ _ _ _ cs => e :: flat_map iter cs
  end.

(** The objects a tree is made of. *)
Definition ids (e : Element) : list nat := map eid (iter e).

Definition opt_text (x : option string) : string :=
  match x with Some s => s | None => EmptyString end.

(** The join of [elem.itertext()] *)
Fixpoint itertext (e : Element) : string :=
  match e with
  | mkElement _ _ _ x _ cs =>
      (opt_text x ++
       fold_right (fun c acc => itertext c ++ opt_text (tail c) ++ acc)
                  EmptyString cs)%string
  end.

(** [copy.deepcopy(elem)]: a new object for the element and for each of
    its descendants, with the same tag, attributes, text and tail.  [n]
    is the first unused address; the result holds the next one. *)
Fixpoint deepcopy (e : Element) (n : nat) : Element * nat :=
  match e with
  | mkElement _ t a x y cs =>
      let fix copy_all (l : list Element) (m : nat) : list Element * nat :=
        match l with
        | [] => ([], m)
        | c :: l' =>
            let (c', m1) := deepcopy c m in
            let (r, m2) := copy_all l' m1 in
            (c' :: r, m2)
        end in
      let (cs', n') := copy_all cs (S n) in
      (mkElement n t a x y cs', n')
  end.

Fixpoint deepcopy_all (l : list Element) (m : nat) : list Element * nat :=
  match l with
  | [] => ([], m)
  | c :: l' =>
      let (c', m1) := deepcopy c m in
      let (r, m2) := deepcopy_all l' m1 in
      (c' :: r, m2)
  end.

(** [ET.fromstring] and [ET.parse(...).getroot()] after the text is
    read: new objects holding the document [x]. *)
Fixpoint build (x : Xml) (n : nat) : Element * nat :=
  match x with
  | mkXml t a tx tl cs =>
      let fix build_all (l : list Xml) (m : nat) : list Element * nat :=
        match l with
        | [] => ([], m)
        | c :: l' =>
            let (c', m1) := build c m in
            let (r, m2) := build_all l' m1 in
            (c' :: r, m2)
        end in
      let (cs', n') := build_all cs (S n) in
      (mkElement n t a tx tl cs', n')
  end.

Fixpoint build_all (l : list Xml) (m : nat) : list Element * nat :=
  match l with
  | [] => ([], m)
  | c :: l' =>
      let (c', m1) := build c m in
      let (r, m2) := build_all l' m1 in
      (c' :: r, m2)
  end.

(** A change made through a reference to the object [i], as a tree
    that may hold that object sees it: [g] stands for the change
    ([set], [append], an assignment to [text], ...). *)
Fixpoint mutate (i : nat) (g : Element -> Element) (e : Element) : Element :=
  match e with
  | mkElement j t a x y cs =>
      let e' := mkElement j t a x y (map (mutate i g) cs) in
      if Nat.eqb j i then g e' else e'
  end.

End ElementTree.

Import ElementTree.

(** ** [xml.etree.ElementPath]: compiling a path and selecting *)

Module ElementPath.

Import ElementPath_tokens.
Local Open Scope list_scope.

(** The functions [_prepare_tag] builds for a wildcard tag. *)
Inductive tag_test : Type :=
| AnyTag                        (* {*}* *)
| NoNamespace                   (* {}* *)
| AnyNamespace (suffix : string) (name : string)  (* {*}name *)
| InNamespace (ns : string).    (* {ns}* *)

(** The [select] closures the [prepare_*] functions return. *)
Inductive selector : Type :=
| SelChild (t : string)
| SelChildWild (w : tag_test)
| SelStar
| SelSelf
| SelDescendant (t : string)
| SelDescendantWild (w : tag_test)
| SelParent
| PredHasAttr (key : string)
| PredAttrEq (key value : string)
| PredAttrNe (key value : string)
| PredHasChild (t : string)
| PredChildText (t value : string) (negated : bool)
| PredText (value : string) (negated : bool)
| PredIndex (index : Z).

(** [tag[:3] == '{*}' or tag[-2:] == '}*'] *)
Definition _is_wildcard_tag (t : string) : bool :=
  startswith t "{*}" || endswith t "}*".

(** [_prepare_tag(tag)] for a wildcard tag *)
Definition _prepare_tag (t : string) : tag_test :=
  if String.eqb t "{*}*" then AnyTag
  else if String.eqb t "{}*" then NoNamespace
  else if startswith t "{*}" then AnyNamespace (drop 2 t) (drop 3 t)
  else InNamespace (drop_last t).

(** Whether the tag of an element passes the test.  Tags are strings
    (the parser keeps no comments or processing instructions). *)
Definition tag_passes (w : tag_test) (el_tag : string) : bool :=
  match w with
  | AnyTag => true
  | NoNamespace => negb (startswith el_tag "{")
  | AnyNamespace suffix name =>
      String.eqb el_tag name || endswith el_tag suffix
  | InNamespace ns => startswith el_tag ns
  end.

(** [prepare_child]: the selector for a child step with tag [t] *)
Definition prepare_child (t : string) : selector :=
  if _is_wildcard_tag t then SelChildWild (_prepare_tag t)
  else SelChild (if startswith t "{}" then drop 2 t else t).

(** [prepare_descendant] once the tag is read *)
Definition descendant_of_tag (t : string) : selector :=
  if _is_wildcard_tag t then SelDescendantWild (_prepare_tag t)
  else SelDescendant (if startswith t "{}" then drop 2 t else t).

(** [re.match(r"\-?\d+$", s)] on a token (a token holds no newline) *)
Definition all_digits (s : string) : bool :=
  match s with
  | EmptyString => false
  | _ => forallb isdigit (list_ascii_of_string s)
  end.

Definition is_integer_token (s : string) : bool :=
  match s with
  | String "-" s' => all_digits s'
  | _ => all_digits s
  end.

Definition digit_value (c : ascii) : Z := Z.of_nat (nat_of_ascii c - 48).

(** Digits with single underscores between them, as [int] reads them. *)
Fixpoint digits_value (acc : Z) (after_digit : bool) (s : string) : option Z :=
  match s with
  | EmptyString => if after_digit then Some acc else None
  | String c s' =>
      if isdigit c then digits_value (acc * 10 + digit_value c) true s'
      else if Ascii.eqb c "_" && after_digit then
        match s' with
        | String d _ => if isdigit d then digits_value acc false s' else None
        | EmptyString => None
        end
      else None
  end.

(** [sys.get_int_max_str_digits()]: Python 3.11 converts a string of
    at most 4300 digits, and the program does not change the limit. *)
Definition int_max_str_digits : nat := 4300.

(** The digits of a literal, its sign and underscores not counted. *)
Definition count_digits (s : string) : nat :=
  List.length (filter isdigit (list_ascii_of_string s)).

(** [int(s)] for a token [s] (no white space): [None] is [ValueError],
    for a string that is no literal and for one with more digits than
    the limit. *)
Definition py_int (s : string) : option Z :=
  if (int_max_str_digits <? count_digits s)%nat then None
  else
    match s with
    | String "-" s' => option_map Z.opp (digits_value 0 false s')
    | String "+" s' => digits_value 0 false s'
    | _ => digits_value 0 false s
    end.

(** The message of the [ValueError] of [int] on a literal of [n]
    digits, more than the limit. *)
Definition exceeds_limit_message (n : nat) : string :=
  "Exceeds the limit (4300 digits) for integer string conversion: value has "
  ++ NilEmpty.string_of_uint (Nat.to_uint n)
  ++ " digits; use sys.set_int_max_str_digits() to increase the limit".

(** What reading the tokens of a predicate up to its closing bracket
    gives. *)
Inductive predicate_tokens : Type :=
| StopIteration
| Raised (e : exn)
| Closed (signature : string) (predicate : list string)
         (rest : list (result token)).

Definition is_quote (c : ascii) : bool :=
  Ascii.eqb c "'" || Ascii.eqb c dquote.

(** The [while 1] loop of [prepare_predicate] *)
Fixpoint read_predicate (ts : list (result token)) (signature : string)
  (predicate : list string) : predicate_tokens :=
  match ts with
  | [] => StopIteration
  | Raise e :: _ => Raised e
  | Ok (ttype, tg) :: ts' =>
      if String.eqb ttype "]" then Closed signature predicate ts'
      else if String.eqb ttype "" && String.eqb tg "" then
        read_predicate ts' signature predicate
      else
        let '(ttype', tg') :=
          match ttype with
          | String q _ => if is_quote q then ("'", slice_1_m1 ttype)
                          else (ttype, tg)
          | EmptyString => (ttype, tg)
          end in
        read_predicate ts'
          (signature ++ (if String.eqb ttype' "" then "-" else ttype'))%string
          (predicate ++ [tg'])
  end.

Definition nth_str (l : list string) (n : nat) : string := nth n l "".
Definition last_str (l : list string) : string := last l "".

(** The part of [prepare_predicate] after the loop: the signature
    decides the kind of predicate. *)
Definition predicate_of_signature (signature : string)
  (predicate : list string) : result selector :=
  let sig_is := String.eqb signature in
  if sig_is "@-" then Ok (PredHasAttr (nth_str predicate 1))
  else if sig_is "@-='" then
    Ok (PredAttrEq (nth_str predicate 1) (last_str predicate))
  else if sig_is "@-!='" then
    Ok (PredAttrNe (nth_str predicate 1) (last_str predicate))
  else if sig_is "-" && negb (is_integer_token (nth_str predicate 0)) then
    Ok (PredHasChild (nth_str predicate 0))
  else if sig_is ".='" || sig_is ".!='"
          || ((sig_is "-='" || sig_is "-!='")
              && negb (is_integer_token (nth_str predicate 0))) then
    let t := nth_str predicate 0 in
    let value := last_str predicate in
    let negated := sig_is ".!='" || sig_is "-!='" in
    Ok (if String.eqb t "" then PredText value negated
        else PredChildText t value negated)
  else if sig_is "-" || sig_is "-()" || sig_is "-()-" then
    if sig_is "-" then
      match py_int (nth_str predicate 0) with
      | Some n =>
          if (n - 1 <? 0)%Z then Raise (SyntaxError PositionExpected)
          else Ok (PredIndex (n - 1))
      | None =>
          (* the token is a literal: only the limit makes [int] raise *)
          Raise (ValueError
                   (exceeds_limit_message
                      (count_digits (nth_str predicate 0))))
      end
    else if negb (String.eqb (nth_str predicate 0) "last") then
      Raise (SyntaxError UnsupportedFunction)
    else if sig_is "-()-" then
      match py_int (nth_str predicate 2) with
      | Some n =>
          if (n - 1 >? -2)%Z then Raise (SyntaxError NegativeOffsetExpected)
          else Ok (PredIndex (n - 1))
      | None => Raise (SyntaxError UnsupportedExpression)
      end
    else Ok (PredIndex (-1))
  else Raise (SyntaxError InvalidPredicate).

(** [ops[token[0]](next, token)]: the selector, or [None] where the
    function returns without a value, and the tokens left.  A key that
    [ops] does not have is a [KeyError]. *)
Definition prepare (tok : token) (ts : list (result token))
  : result (option selector) * list (result token) :=
  let (ttype, tg) := tok in
  if String.eqb ttype "" then (Ok (Some (prepare_child tg)), ts)
  else if String.eqb ttype "*" then (Ok (Some SelStar), ts)
  else if String.eqb ttype "." then (Ok (Some SelSelf), ts)
  else if String.eqb ttype ".." then (Ok (Some SelParent), ts)
  else if String.eqb ttype "//" then
    match ts with
    | [] => (Ok None, [])
    | Raise e :: _ => (Raise e, [])
    | Ok (ttype', tg') :: ts' =>
        if String.eqb ttype' "*" then (Ok (Some (descendant_of_tag "*")), ts')
        else if String.eqb ttype' "" then
          (Ok (Some (descendant_of_tag tg')), ts')
        else (Raise (SyntaxError InvalidDescendant), ts')
    end
  else if String.eqb ttype "[" then
    match read_predicate ts "" [] with
    | StopIteration => (Ok None, [])
    | Raised e => (Raise e, [])
    | Closed signature predicate rest =>
        (bind (predicate_of_signature signature predicate)
              (fun s => Ok (Some s)), rest)
    end
  else (Raise (KeyError ttype), ts).

(** The [while 1] loop of [iterfind] that fills [selector].  Each turn
    takes at least one token, so the number of tokens is fuel enough. *)
Fixpoint compile_loop (fuel : nat) (tok : token) (ts : list (result token))
  (acc : list (option selector)) : result (list (option selector)) :=
  match fuel with
  | O => Ok acc
  | S fuel' =>
      match prepare tok ts with
      | (Raise e, _) => Raise e
      | (Ok sel, ts1) =>
          let acc' := acc ++ [sel] in
          match ts1 with
          | [] => Ok acc'
          | Raise e :: _ => Raise e
          | Ok t :: ts2 =>
              if String.eqb (fst t) "/" then
                match ts2 with
                | [] => Ok acc'
                | Raise e :: _ => Raise e
                | Ok t2 :: ts3 => compile_loop fuel' t2 ts3 acc'
                end
              else compile_loop fuel' t ts2 acc'
          end
      end
  end.

(** The compiling half of [iterfind(elem, path)]: [Ok None] when the
    path has no token (the function returns without a value). *)
Definition compile (path : string) : result (option (list (option selector))) :=
  let path := if endswith path "/" then (path ++ "*")%string else path in
  if startswith path "/" then Raise (SyntaxError AbsolutePath)
  else
    match xpath_tokenizer path with
    | [] => Ok None
    | Raise e :: _ => Raise e
    | Ok tok :: ts =>
        bind (compile_loop (S (List.length ts)) tok ts [])
             (fun sel => Ok (Some sel))
    end.

(** *** Selecting *)

(** The children of [e] that the child step for tag [t] selects.  This
    is also what [e.findall(t)] and [e.find(t)] give when [t] is read
    as one name token, which holds for the name tokens of a predicate
    and for the tags the parser produces. *)
Definition select_child (sel : selector) (e : Element) : list Element :=
  match sel with
  | SelChild t => filter (fun c => String.eqb (tag c) t) (children e)
  | SelChildWild w => filter (fun c => tag_passes w (tag c)) (children e)
  | _ => []
  end.

Definition findall_tag (e : Element) (t : string) : list Element :=
  select_child (prepare_child t) e.

(** [get_parent_map(context)]: for each child object its parent, the
    last assignment winning. *)
Definition parent_pairs (root : Element) : list (nat * Element) :=
  flat_map (fun p => map (fun c => (eid c, p)) (children p)) (iter root).

Definition parent_of (root e : Element) : option Element :=
  match find (fun kv => Nat.eqb (fst kv) (eid e)) (rev (parent_pairs root)) with
  | Some (_, p) => Some p
  | None => None
  end.

(** [l[index]] with Python's negative indices; [None] is [IndexError]. *)
Definition py_nth (l : list Element) (index : Z) : option Element :=
  if (0 <=? index)%Z then nth_error l (Z.to_nat index)
  else if (- index <=? Z.of_nat (List.length l))%Z
       then nth_error l (List.length l - Z.to_nat (- index))
       else None.

(** The parents of the elements of [result], each parent once. *)
Fixpoint select_parents (root : Element) (seen : list nat)
  (result : list Element) : list Element :=
  match result with
  | [] => []
  | e :: result' =>
      match parent_of root e with
      | Some p =>
          if existsb (Nat.eqb (eid p)) seen
          then select_parents root seen result'
          else p :: select_parents root (eid p :: seen) result'
      | None => select_parents root seen result'
      end
  end.

(** [select(context, result)] for each kind of selector; [root] is
    [context.root], the element [find] was called on. *)
Definition select (root : Element) (sel : selector) (result : list Element)
  : list Element :=
  match sel with
  | SelChild _ | SelChildWild _ => flat_map (select_child sel) result
  | SelStar => flat_map children result
  | SelSelf => result
  | SelDescendant t =>
      flat_map (fun e =>
        filter (fun d => negb (Nat.eqb (eid d) (eid e))
                         && (String.eqb t "*" || String.eqb (tag d) t))
               (iter e)) result
  | SelDescendantWild w =>
      flat_map (fun e =>
        filter (fun d => negb (Nat.eqb (eid d) (eid e))
                         && tag_passes w (tag d))
               (iter e)) result
  | SelParent => select_parents root [] result
  | PredHasAttr key =>
      filter (fun e => match get e key with Some _ => true | None => false end)
             result
  | PredAttrEq key value =>
      filter (fun e => match get e key with
                       | Some v => String.eqb v value
                       | None => false
                       end) result
  | PredAttrNe key value =>
      filter (fun e => match get e key with
                       | Some v => negb (String.eqb v value)
                       | None => false
                       end) result
  | PredHasChild t =>
      filter (fun e => match findall_tag e t with
                       | [] => false
                       | _ :: _ => true
                       end) result
  | PredChildText t value negated =>
      filter (fun e =>
        existsb (fun c => xorb negated (String.eqb (itertext c) value))
                (findall_tag e t)) result
  | PredText value negated =>
      filter (fun e => xorb negated (String.eqb (itertext e) value)) result
  | PredIndex index =>
      filter (fun e =>
        match parent_of root e with
        | Some p =>
            match py_nth (findall_tag p (tag e)) index with
            | Some x => Nat.eqb (eid x) (eid e)
            | None => false
            end
        | None => false
        end) result
  end.

(** The loop [for select in selector: result = select(context, result)].
    The selections are generators and do nothing before they are
    iterated; calling a selector that is [None] raises at once. *)
Fixpoint run_selectors (root : Element) (sels : list (option selector))
  (result : list Element) : Py.result (list Element) :=
  match sels with
  | [] => Ok result
  | None :: _ => Raise (TypeError "'NoneType' object is not callable")
  | Some s :: sels' =>
      match run_selectors root sels' (select root s result) with
      | Ok r => Ok r
      | Raise e => Raise e
      end
  end.

(** [iterfind(elem, path)] *)
Definition iterfind (elem : Element) (path : string)
  : result (option (list Element)) :=
  match compile path with
  | Raise e => Raise e
  | Ok None => Ok None
  | Ok (Some sels) =>
      match run_selectors elem sels [elem] with
      | Ok r => Ok (Some r)
      | Raise e => Raise e
      end
  end.

(** [find(elem, path)], that is [next(iterfind(elem, path), None)]:
    the first element selected, or [None]. *)
Definition find (elem : Element) (path : string) : result (option Element) :=
  match iterfind elem path with
  | Raise e => Raise e
  | Ok None => Raise (TypeError "'NoneType' object is not an iterator")
  | Ok (Some r) => Ok (List.hd_error r)
  end.

End ElementPath.

(** ** The class [CircuitTransfer] *)

Module CircuitTransfer.

Local Open Scope list_scope.

(** The object after [__init__] (and [load_source_from_string], where
    [main] uses it): the roots of the two parsed documents.  [next_id]
    is the first address no object has yet. *)
Record state : Type := mkState {
  src_root : Element;   (* <project> of the source file *)
  dst_root : Element;   (* <project> of the destination file *)
  next_id : nat
}.

(** The two documents are parsed one after the other, each into new
    objects. *)
Definition loaded (src dst : Xml) : state :=
  let (s, n1) := build src 0 in
  let (d, n2) := build dst n1 in
  mkState s d n2.

(** What the operating system answers to [_sanitize_path] and to
    [ElementTree.write]. *)
Record os : Type := mkOs {
  abspath : string -> string;          (* os.path.abspath *)
  exists_ : string -> bool;            (* os.path.exists *)
  isfile : string -> bool;             (* os.path.isfile *)
  write_error : string -> option string  (* the OSError of opening for writing *)
}.

(** [_sanitize_path(path)] *)
Definition _sanitize_path (sys : os) (path : value) : result string :=
  match path with
  | PyStr p =>
      let cleaned := strip_chars (str1 dquote) (strip_chars "'" (strip p)) in
      (* absolute path resolution *)
      let cleaned := abspath sys cleaned in
      if negb (exists_ sys cleaned) then
        Raise (FileNotFoundError ("Path does not exist: " ++ cleaned))
      else if negb (isfile sys cleaned) then
        Raise (ValueError ("Path is not a file: " ++ cleaned))
      else Ok cleaned
  | _ => Raise (TypeError "Path must be a string. Seriously.")
  end.

(** The path of [get_src_circuit] and [get_dst_circuit]:
    [f"./circuit[@name='{name}']"] *)
Definition circuit_path (name : string) : string :=
  "./circuit[@name='" ++ name ++ "']".

(** [get_src_circuit(name)]: get [<circuit name='...'>] from the source
    file.  [Element.find] hands every path that has a path character
    to [ElementPath.find]. *)
Definition get_src_circuit (self : state) (name : string)
  : result (option Element) :=
  ElementPath.find (src_root self) (circuit_path name).

(** [get_dst_circuit(name)]: get [<circuit name='...'>] from the
    destination file. *)
Definition get_dst_circuit (self : state) (name : string)
  : result (option Element) :=
  ElementPath.find (dst_root self) (circuit_path name).

(** [copy_to_dst(name, new_name=None)]: copy [<circuit>] from the source
    to the destination; if a circuit with the same name exists in the
    destination, replace it.  The result is the outcome of the call and
    the object as the call leaves it. *)
Definition copy_to_dst (self : state) (name : string)
  (new_name : option string) : result unit * state :=
  match get_src_circuit self name with
  | Raise e => (Raise e, self)
  | Ok None =>
      (Raise (ValueError ("Circuit '" ++ name ++ "' not found in source")),
       self)
  | Ok (Some src_circuit) =>
      (* Clone it *)
      let (clone, n) := deepcopy src_circuit (next_id self) in
      let self := mkState (src_root self) (dst_root self) n in
      (* Rename if needed *)
      let (clone, final_name) :=
        match new_name with
        | Some new_name => (set clone "name" new_name, new_name)
        | None => (clone, name)
        end in
      (* If a circuit with the same name exists in destination, remove it *)
      match get_dst_circuit self final_name with
      | Raise e => (Raise e, self)
      | Ok dst_existing =>
          let removed :=
            match dst_existing with
            | Some d => remove (dst_root self) d
            | None => Ok (dst_root self)
            end in
          match removed with
          | Raise e => (Raise e, self)
          | Ok root =>
              (* Append the cloned circuit into destination <project> *)
              (Ok tt, mkState (src_root self) (append root clone) n)
          end
      end
  end.

(** What [dst_tree.write(path, ...)] leaves on disk: the destination
    document at [path]. *)
Record written : Type := mkWritten {
  written_path : string;
  written_document : Xml
}.

(** [save(out_path=None)] *)
Definition save (sys : os) (self : state) (out_path : value)
  : result written :=
  match _sanitize_path sys out_path with
  | Raise e => Raise e
  | Ok out_path =>
      let path := PyStr out_path in
      if is_None path then
        Raise (ValueError "Must specify output path for destination file")
      else
        match write_error sys out_path with
        | Some msg => Raise (OSError msg)
        | None => Ok (mkWritten out_path (content (dst_root self)))
        end
  end.

(** The loop of [main]:
    [for circ_name in picked: transfer.copy_to_dst(circ_name)].
    An exception leaves the loop (and [main]) at once. *)
Fixpoint copy_all (self : state) (picked : list string)
  : result unit * state :=
  match picked with
  | [] => (Ok tt, self)
  | circ_name :: rest =>
      match copy_to_dst self circ_name None with
      | (Ok _, self') => copy_all self' rest
      | (Raise e, self') => (Raise e, self')
      end
  end.

(** The end of [main]: the loop, then [transfer.save(destination_file)]. *)
Definition main_batch (sys : os) (self : state) (picked : list string)
  (destination_file : string) : result written * state :=
  match copy_all self picked with
  | (Ok _, self') => (save sys self' (PyStr destination_file), self')
  | (Raise e, self') => (Raise e, self')
  end.

End CircuitTransfer.

Import CircuitTransfer.

(** ** Constructing a [CircuitTransfer] *)

Module CircuitTransfer_load.

Local Open Scope list_scope.

(** The files as the constructor sees them: the answers of the
    operating system to [_sanitize_path], what [ET.parse(path)] reads
    from a path and what [ET.fromstring(text)] reads from a text
    ([None] where the parser raises). *)
Record files : Type := mkFiles {
  files_os : os;
  parse : string -> option Xml;
  fromstring : string -> option Xml
}.

(** The object while it is set up: [src_root] is not set before a
    source is imported. *)
Record instance : Type := mkInstance {
  inst_src_path : option string;
  inst_src_root : option Element;
  inst_dst_path : string;
  inst_dst_root : Element;
  inst_next_id : nat
}.

(** How a step of the set-up ends: with a value, with an exception of
    [_sanitize_path], or with the error of the parser on a source. *)
Inductive loading (A : Type) : Type :=
| Loaded (a : A)
| LoadRaise (e : exn)
| ParseError (source : string).
Arguments Loaded {A} a.
Arguments LoadRaise {A} e.
Arguments ParseError {A} source.

(** The truth value of an argument, as [if src_path:] takes it. *)
Definition truthy (v : value) : bool :=
  match v with
  | PyNone => false
  | PyStr s => negb (String.eqb s "")
  | PyInt z => negb (Z.eqb z 0)
  end.

(** The body shared by [_import_source_file] and
    [_import_destination_file]: the sanitized path and the root of the
    parsed tree, in new objects from address [n] on. *)
Definition import_file (fs : files) (path : value) (n : nat)
  : loading (string * Element * nat) :=
  match _sanitize_path (files_os fs) path with
  | Raise e => LoadRaise e
  | Ok p =>
      match parse fs p with
      | None => ParseError p
      | Some x => let (root, n') := build x n in Loaded (p, root, n')
      end
  end.

(** [__init__(src_path, dst_path)] *)
Definition __init__ (fs : files) (src_path dst_path : value)
  : loading instance :=
  if truthy src_path then
    match import_file fs src_path 0 with
    | Loaded (sp, sroot, n) =>
        match import_file fs dst_path n with
        | Loaded (dp, droot, n') =>
            Loaded (mkInstance (Some sp) (Some sroot) dp droot n')
        | LoadRaise e => LoadRaise e
        | ParseError p => ParseError p
        end
    | LoadRaise e => LoadRaise e
    | ParseError p => ParseError p
    end
  else
    match import_file fs dst_path 0 with
    | Loaded (dp, droot, n') => Loaded (mkInstance None None dp droot n')
    | LoadRaise e => LoadRaise e
    | ParseError p => ParseError p
    end.

(** [load_source_from_string(xml_string)]: replace the current source
    by one loaded from a string. *)
Definition load_source_from_string (fs : files) (self : instance)
  (xml_string : string) : loading instance :=
  match fromstring fs xml_string with
  | None => ParseError xml_string
  | Some x =>
      let (root, n') := build x (inst_next_id self) in
      Loaded (mkInstance (inst_src_path self) (Some root)
                (inst_dst_path self) (inst_dst_root self) n')
  end.

(** The object once both roots are set, as the other methods use it. *)
Definition ready (self : instance) : option state :=
  match inst_src_root self with
  | Some s => Some (mkState s (inst_dst_root self) (inst_next_id self))
  | None => None
  end.

End CircuitTransfer_load.

Import CircuitTransfer_load.

(** ** The class [JSONMenu] *)

Module JSONMenu.

Local Open Scope list_scope.

Section Menu.

(** The values of a JSON document that are no objects (strings,
    numbers, lists, ...): [run] returns them as they are. *)
Variable leaf : Type.

(** [sys.get_int_max_str_digits()]: the number of digits up to which
    [int] converts a string, 4300 unless it was changed; 0 for no
    limit, which is also how an interpreter without the limit
    behaves. *)
Variable max_str_digits : nat.

(** What [json.load] gives: a [dict] in insertion order, or another
    value. *)
Inductive json : Type :=
| Leaf (v : leaf)
| Dict (items : list (string * json)).

(** How [run] ends: it returns the leaf, [input] has no more lines, or
    [int(choice)] or [current[picked_key]] raises. *)
Inductive outcome : Type :=
| Imported (v : leaf)
| EOFError
| IntValueError (choice : string)
| DictKeyError (key : string).

(** [c.isdigit()] for a code point below 256: the decimal digits and
    the superscripts two, three and one. *)
Definition char_isdigit (c : ascii) : bool :=
  let n := nat_of_ascii c in
  ((48 <=? n)%nat && (n <=? 57)%nat)
  || (n =? 178)%nat || (n =? 179)%nat || (n =? 185)%nat.

(** [choice.isdigit()] *)
Definition str_isdigit (s : string) : bool :=
  match s with
  | EmptyString => false
  | _ => forallb char_isdigit (list_ascii_of_string s)
  end.

(** The decimal value of a string of decimal digits, [None] when
    another character is among them. *)
Fixpoint decimal (acc : nat) (s : string) : option nat :=
  match s with
  | EmptyString => Some acc
  | String c s' =>
      if Py.isdigit c then decimal (acc * 10 + (nat_of_ascii c - 48)) s'
      else None
  end.

(** [int(choice)] for a [choice] that passed [isdigit]: the decimal
    value, or [None] ([ValueError]) when a superscript is among the
    digits or when there are more digits than the interpreter
    converts. *)
Definition int (choice : string) : option nat :=
  if negb (max_str_digits =? 0)%nat
     && (max_str_digits <? String.length choice)%nat
  then None
  else decimal 0 choice.

(** [current[picked_key]] *)
Fixpoint getitem (items : list (string * json)) (key : string)
  : option json :=
  match items with
  | [] => None
  | (k, v) :: items' =>
      if String.eqb k key then Some v else getitem items' key
  end.

(** [not history] *)
Definition is_empty {A : Type} (l : list A) : bool :=
  match l with [] => true | _ :: _ => false end.

(** The [while True] loop of [run]: [history] and [key_history] are
    the two stacks (top first), [inputs] the lines [input] will return.
    The outcome comes with the lines not read.  What the loop prints is
    left out. *)
Fixpoint run_loop (inputs : list string) (history : list json)
  (key_history : list (option string)) (current : json)
  (parent_key : option string) {struct inputs} : outcome * list string :=
  match current with
  | Leaf v =>
      (* final leaf? exit and return the value *)
      (Imported v, inputs)
  | Dict items =>
      let keys := map fst items in
      match inputs with
      | [] => (EOFError, [])
      | choice :: inputs' =>
          (* Validate numeric input *)
          if negb (str_isdigit choice) then
            run_loop inputs' history key_history current parent_key
          else
            match int choice with
            | None => (IntValueError choice, inputs')
            | Some choice =>
                if negb (is_empty history)
                   && (choice =? List.length keys + 1)%nat then
                  (* Handle Back *)
                  run_loop inputs' (List.tl history) (List.tl key_history)
                    (List.hd current history)
                    (List.hd None key_history)
                else if ((1 <=? choice)%nat
                         && (choice <=? List.length keys)%nat) then
                  (* Normal pick *)
                  let picked_key := nth (choice - 1) keys EmptyString in
                  match getitem items picked_key with
                  | Some next =>
                      (* push current state to history, move deeper *)
                      run_loop inputs' (current :: history)
                        (parent_key :: key_history) next (Some picked_key)
                  | None => (DictKeyError picked_key, inputs')
                  end
                else
                  run_loop inputs' history key_history current parent_key
            end
      end
  end.

(** [run()] on the menu [menu] *)
Definition run (menu : json) (inputs : list string) : outcome * list string :=
  run_loop inputs [] [] menu None.

End Menu.

Arguments Leaf {leaf} v.
Arguments Dict {leaf} items.
Arguments Imported {leaf} v.
Arguments EOFError {leaf}.
Arguments IntValueError {leaf} choice.
Arguments DictKeyError {leaf} key.
Arguments getitem {leaf} items key.
Arguments run_loop {leaf} max_str_digits inputs history key_history
  current parent_key.
Arguments run {leaf} max_str_digits menu inputs.

End JSONMenu.

(** ** The function [main] after the menu *)

Module Main.

Local Open Scope list_scope.

(** How [main] ends: the destination file written, an exception of
    the program or of [ElementPath], the parser's error on a source,
    the download failing, or [copy_to_dst] on an object whose
    [src_root] was never set. *)
Inductive main_result : Type :=
| Saved (w : written)
| MainRaise (e : exn)
| MainParseError (source : string)
| FetchError
| AttributeError (msg : string).

(** The branch [if picked == "copy_circ"]: one transfer from the file
    the user names, then [save]. *)
Definition main_copy_circ (fs : files)
  (destination_file source_file circ_name : string) : main_result :=
  match __init__ fs (PyStr source_file) (PyStr destination_file) with
  | LoadRaise e => MainRaise e
  | ParseError p => MainParseError p
  | Loaded transfer =>
      match ready transfer with
      | None =>
          AttributeError "'CircuitTransfer' object has no attribute 'src_root'"
      | Some st =>
          match copy_to_dst st circ_name None with
          | (Raise e, _) => MainRaise e
          | (Ok _, st') =>
              match save (files_os fs) st' (PyStr destination_file) with
              | Ok w => Saved w
              | Raise e => MainRaise e
              end
          end
      end
  end.

(** The source of the other branch: [master.circ] if it exists, else
    the text downloaded ([None] when the download fails), loaded into
    an object built without a source. *)
Definition open_master (fs : files) (remote : option string)
  (destination_file : string) : option (loading instance) :=
  if exists_ (files_os fs) "master.circ" then
    Some (__init__ fs (PyStr "master.circ") (PyStr destination_file))
  else
    match remote with
    | None => None
    | Some remote_master_circ =>
        Some match __init__ fs (PyStr "") (PyStr destination_file) with
             | Loaded transfer =>
                 load_source_from_string fs transfer remote_master_circ
             | LoadRaise e => LoadRaise e
             | ParseError p => ParseError p
             end
    end.

(** The branch for a list of circuit names: open the master source,
    transfer each name, [save]. *)
Definition main_import (fs : files) (remote : option string)
  (destination_file : string) (picked : list string) : main_result :=
  match open_master fs remote destination_file with
  | None => FetchError
  | Some (LoadRaise e) => MainRaise e
  | Some (ParseError p) => MainParseError p
  | Some (Loaded transfer) =>
      match ready transfer with
      | None =>
          AttributeError "'CircuitTransfer' object has no attribute 'src_root'"
      | Some st =>
          match main_batch (files_os fs) st picked destination_file with
          | (Ok w, _) => Saved w
          | (Raise e, _) => MainRaise e
          end
      end
  end.

End Main.

Import Main.

(** * What the properties are stated with *)

Local Open Scope list_scope.

(** The name holds no apostrophe (the character that closes the
    string literal of [circuit_path]). *)
Definition quote_free (name : string) : Prop := char_in "'" name = false.

(** The element is a [circuit] whose attribute [name] is [name],
    character for character. *)
Definition is_circuit_named (name : string) (c : Element) : bool :=
  String.eqb (tag c) "circuit" &&
  match get c "name" with
  | Some v => String.eqb v name
  | None => false
  end.

(** The first top-level [circuit] of [root] whose attribute [name] is
    [name]: what the locator is to find. *)
Definition first_circuit (name : string) (root : Element) : option Element :=
  List.find (is_circuit_named name) (children root).

(** The objects of the two documents are all different and all
    allocated: what [__init__] sets up by parsing each file into new
    objects. *)
Definition wf (st : state) : Prop :=
  NoDup (ids (src_root st) ++ ids (dst_root st)) /\
  Forall (fun i => i < next_id st) (ids (src_root st) ++ ids (dst_root st)).

(** [wf] as a test, for concrete states. *)
Fixpoint nodupb (l : list nat) : bool :=
  match l with
  | [] => true
  | i :: l' => negb (existsb (Nat.eqb i) l') && nodupb l'
  end.

Definition wfb (st : state) : bool :=
  nodupb (ids (src_root st) ++ ids (dst_root st)) &&
  forallb (fun i => Nat.ltb i (next_id st))
          (ids (src_root st) ++ ids (dst_root st)).

(** The name of a top-level circuit, if the element is one. *)
Definition circuit_name (c : Element) : list string :=
  if String.eqb (tag c) "circuit" then
    match get c "name" with Some v => [v] | None => [] end
  else [].

(** The names of the top-level circuits of a document. *)
Definition circuit_names (root : Element) : list string :=
  flat_map circuit_name (children root).

(** No two top-level circuits of the document have the same name. *)
Definition unique_names (root : Element) : Prop := NoDup (circuit_names root).

(** [unique_names] as a test, for concrete documents. *)
Fixpoint nodup_strb (l : list string) : bool :=
  match l with
  | [] => true
  | s :: l' => negb (existsb (String.eqb s) l') && nodup_strb l'
  end.

(** The children without the first circuit of the given name, the
    others in their order. *)
Fixpoint remove_named (name : string) (cs : list Element) : list Element :=
  match cs with
  | [] => []
  | c :: cs' =>
      if is_circuit_named name c then cs' else c :: remove_named name cs'
  end.

(** The destination after a transfer: the circuit of the final name
    gone, the clone last. *)
Definition replaced (root : Element) (final : string) (clone : Element)
  : Element :=
  match root with
  | mkElement i t a x y cs =>
      mkElement i t a x y (remove_named final cs ++ [clone])
  end.

(** [final_name] and the clone after the renaming step of
    [copy_to_dst]. *)
Definition final_name (name : string) (new_name : option string) : string :=
  match new_name with Some n => n | None => name end.

Definition renamed (new_name : option string) (e : Element) : Element :=
  match new_name with Some n => set e "name" n | None => e end.

(** The destination after [dst_root.remove(dst_existing)]. *)
Definition without_named (root : Element) (final : string) : Element :=
  match root with
  | mkElement i t a x y cs => mkElement i t a x y (remove_named final cs)
  end.

(** The top-level name attributes of a document, of circuits and of
    everything else ([<main name=...>], [<lib name=...>], ...). *)
Definition top_level_names (root : Element) : list string :=
  flat_map (fun c => match get c "name" with Some v => [v] | None => [] end)
           (children root).

(** Documents for the examples: [<project>], [<circuit name=...>] and
    other elements without text. *)
Definition project (cs : list Xml) : Xml := mkXml "project" [] None None cs.

Definition circuit (name : string) (payload : list Xml) : Xml :=
  mkXml "circuit" [("name", name)] None None payload.

Definition leaf (t : string) (a : list (string * string)) : Xml :=
  mkXml t a None None [].

(** The path [_sanitize_path] checks: stripped of white space and of
    quotes, and made absolute. *)
Definition cleaned (sys : os) (p : string) : string :=
  abspath sys (strip_chars (str1 dquote) (strip_chars "'" (strip p))).

(** The element is a top-level circuit candidate of the given name. *)
Definition named_circuit (name : string) (c : Element) : Prop :=
  tag c = "circuit" /\ get c "name" = Some name.

(** [r] is the first child of [root] that is a circuit of the given
    name, or [None] when no child is one. *)
Definition locates (name : string) (root : Element) (r : option Element)
  : Prop :=
  match r with
  | Some c =>
      exists l1 l2, children root = l1 ++ c :: l2
                    /\ named_circuit name c
                    /\ forall x, In x l1 -> ~ named_circuit name x
  | None => forall x, In x (children root) -> ~ named_circuit name x
  end.

(** The same object with the same tag, attributes, text and tail:
    only the children may differ. *)
Definition same_node (r r' : Element) : Prop :=
  eid r' = eid r /\ tag r' = tag r /\ attrib r' = attrib r
  /\ text r' = text r /\ tail r' = tail r.

(** The element is not a circuit of one of the names. *)
Definition untargeted (names : list string) (c : Element) : bool :=
  negb (existsb (fun n => is_circuit_named n c) names).

(** The objects of an object under construction are all different and
    all allocated ([wf] before the source is set). *)
Definition inst_ids (self : instance) : list nat :=
  match inst_src_root self with
  | Some s => ids s
  | None => []
  end ++ ids (inst_dst_root self).

Definition inst_wf (self : instance) : Prop :=
  NoDup (inst_ids self)
  /\ Forall (fun i => i < inst_next_id self) (inst_ids self).

(** Files for the examples: a library, a project and a master file
    in the working directory [/work], and one text the parser reads. *)
Definition example_files : files :=
  mkFiles
    (mkOs (fun p => "/work/" ++ p)%string
          (fun p => String.eqb p "/work/lib.circ"
                    || String.eqb p "/work/project.circ"
                    || String.eqb p "/work/master.circ"
                    || String.eqb p "master.circ")
          (fun p => String.eqb p "/work/lib.circ"
                    || String.eqb p "/work/project.circ"
                    || String.eqb p "/work/master.circ")
          (fun _ => None))
    (fun p => if String.eqb p "/work/project.circ"
              then Some (project [leaf "main" [("name", "main")];
                                  circuit "main" []])
              else if String.eqb p "/work/lib.circ"
              then Some (project [circuit "adder" [leaf "wire" []]])
              else if String.eqb p "/work/master.circ"
              then Some (project [circuit "A" []; circuit "B" []])
              else None)
    (fun text => if String.eqb text "<project/>" then Some (project [])
                 else None).

(** Every character of [w] is white space. *)
Definition all_space (w : string) : Prop :=
  forallb isspace (list_ascii_of_string w) = true.

(** A path that the cleaning of [_sanitize_path] leaves as it is: no
    white space and no quote at either end. *)
Definition bare (p : string) : Prop :=
  strip p = p /\ strip_chars "'" p = p /\ strip_chars (str1 dquote) p = p.

(** The line [choice] is a number for [run]: it passes [isdigit] and
    [int] reads it as [n]. *)
Definition choice_is (max_str_digits : nat) (choice : string) (n : nat)
  : Prop :=
  JSONMenu.str_isdigit choice = true
  /\ JSONMenu.int max_str_digits choice = Some n.

(** [sub] is the menu [root] or a value below it. *)
Inductive submenu {leaf : Type} (root : JSONMenu.json leaf)
  : JSONMenu.json leaf -> Prop :=
| submenu_root : submenu root root
| submenu_item items k c :
    submenu root (JSONMenu.Dict items) -> In (k, c) items -> submenu root c.

(** The keys of every [dict] of the menu are different, as in a
    [dict] that [json.load] returns. *)
Inductive distinct_keys {leaf : Type} : JSONMenu.json leaf -> Prop :=
| distinct_leaf v : distinct_keys (JSONMenu.Leaf v)
| distinct_dict items :
    NoDup (map fst items) ->
    (forall k c, In (k, c) items -> distinct_keys c) ->
    distinct_keys (JSONMenu.Dict items).

(** The value reached from [m] by taking the entries numbered
    [path], counted from 1, one level after the other. *)
Fixpoint follow {leaf : Type} (m : JSONMenu.json leaf) (path : list nat)
  : option (JSONMenu.json leaf) :=
  match path with
  | [] => Some m
  | n :: path' =>
      match m, n with
      | JSONMenu.Dict items, S i =>
          match nth_error items i with
          | Some (_, c) => follow c path'
          | None => None
          end
      | _, _ => None
      end
  end.

(** A menu for the examples; its leaves are lists of circuit names. *)
Definition example_menu : JSONMenu.json (list string) :=
  JSONMenu.Dict
    [("Arithmetic",
      JSONMenu.Dict [("Adders", JSONMenu.Leaf ["half"; "full"]);
                     ("Counter", JSONMenu.Leaf ["counter"])]);
     ("Memory", JSONMenu.Dict [("Register", JSONMenu.Leaf ["reg8"])])].

(** A line with the superscript two, code point 178. *)
Definition superscript_two : string := String "178"%char EmptyString.

(** * Properties *)

Local Open Scope list_scope.

(** ** Names without an apostrophe *)

Lemma quote_free_cons c s :
  quote_free (String c s) <-> c <> "'"%char /\ quote_free s.
Proof.
  unfold quote_free, char_in. cbn [existsb list_ascii_of_string].
  rewrite orb_false_iff, Ascii.eqb_neq. intuition congruence.
Qed.

Lemma until_quote name rest :
  quote_free name ->
  ElementPath_tokens.until "'" (name ++ String "'" rest)%string
  = Some (name, rest).
Proof.
  induction name as [|c s IH]; intros H.
  - reflexivity.
  - apply quote_free_cons in H as [Hc Hs]. cbn [String.append].
    apply Ascii.eqb_neq in Hc. cbn [ElementPath_tokens.until].
    rewrite Hc, (IH Hs). reflexivity.
Qed.

Lemma drop_last_app name c :
  drop_last (name ++ String c EmptyString)%string = name.
Proof.
  induction name as [|d s IH]; simpl; [reflexivity|].
  rewrite IH. destruct s; reflexivity.
Qed.

Lemma string_length_app (a b : string) :
  String.length (a ++ b)%string = String.length a + String.length b.
Proof. induction a; simpl; congruence. Qed.

Lemma scan_prefix fuel rest :
  ElementPath_tokens.scan (7 + fuel) ("./circuit[@name=" ++ rest)%string
  = [(".", ""); ("/", ""); ("", "circuit"); ("[", ""); ("@", "");
     ("", "name"); ("=", "")] ++ ElementPath_tokens.scan fuel rest.
Proof. reflexivity. Qed.

Lemma match_token_quoted name rest :
  quote_free name ->
  ElementPath_tokens.match_token (String "'" (name ++ String "'" rest))%string
  = Some ((("'" ++ name ++ "'")%string, ""), rest).
Proof.
  intros H. unfold ElementPath_tokens.match_token,
    ElementPath_tokens.match_quoted.
  cbn [Ascii.eqb Bool.eqb orb]. rewrite (until_quote name rest H).
  reflexivity.
Qed.

Lemma scan_quoted fuel name :
  quote_free name ->
  ElementPath_tokens.scan (S (S fuel)) ("'" ++ name ++ "']")%string
  = [(("'" ++ name ++ "'")%string, ""); ("]", "")].
Proof.
  intros H. change ("'" ++ name ++ "']")%string
    with (String "'" (name ++ String "'" "]"))%string.
  cbn [ElementPath_tokens.scan]. rewrite (match_token_quoted name "]" H).
  simpl. destruct fuel; reflexivity.
Qed.

(** The tokens of the path of a name without an apostrophe. *)
Lemma tokens_circuit_path name :
  quote_free name ->
  ElementPath_tokens.xpath_tokenizer (circuit_path name)
  = [Ok (".", ""); Ok ("/", ""); Ok ("", "circuit"); Ok ("[", "");
     Ok ("@", ""); Ok ("", "name"); Ok ("=", "");
     Ok (("'" ++ name ++ "'")%string, ""); Ok ("]", "")].
Proof.
  intros H.
  unfold ElementPath_tokens.xpath_tokenizer, ElementPath_tokens.findall,
    circuit_path.
  assert (Hlen : String.length
            ("./circuit[@name='" ++ name ++ "']")%string
          = 7 + S (S (10 + String.length name))).
  { rewrite !string_length_app. simpl String.length. lia. }
  rewrite Hlen.
  change ("./circuit[@name='" ++ name ++ "']")%string
    with ("./circuit[@name=" ++ ("'" ++ name ++ "']"))%string.
  rewrite scan_prefix, (scan_quoted _ name H). reflexivity.
Qed.

Lemma endswith_last s c p :
  c <> p -> endswith (s ++ String c EmptyString)%string (String p EmptyString)
            = false.
Proof.
  intros Hc. induction s as [|d s IH].
  - cbn. apply Ascii.eqb_neq in Hc. rewrite Hc. reflexivity.
  - cbn [String.append endswith]. rewrite IH, orb_false_r.
    cbn [String.eqb]. destruct (Ascii.eqb d p); [|reflexivity].
    destruct s; reflexivity.
Qed.

Lemma app_assoc_str (a b c : string) :
  ((a ++ b) ++ c = a ++ b ++ c)%string.
Proof. induction a; simpl; congruence. Qed.

(** The selectors of the path of a name without an apostrophe: the
    element itself, its [circuit] children, those whose attribute
    [name] is the name. *)
Lemma compile_circuit_path name :
  quote_free name ->
  ElementPath.compile (circuit_path name)
  = Ok (Some [Some ElementPath.SelSelf;
              Some (ElementPath.SelChild "circuit");
              Some (ElementPath.PredAttrEq "name" name)]).
Proof.
  intros H. unfold ElementPath.compile.
  assert (E : endswith (circuit_path name) "/" = false).
  { unfold circuit_path.
    change "']"%string with ("'" ++ "]")%string.
    rewrite <- !app_assoc_str. apply endswith_last. discriminate. }
  rewrite E, (tokens_circuit_path name H).
  cbn. rewrite (drop_last_app name "'"). reflexivity.
Qed.

Lemma hd_error_filter {A} (p : A -> bool) (l : list A) :
  hd_error (filter p l) = List.find p l.
Proof.
  induction l as [|a l IH]; simpl; [reflexivity|].
  destruct (p a); [reflexivity | exact IH].
Qed.

Lemma filter_filter {A} (p q : A -> bool) (l : list A) :
  filter q (filter p l) = filter (fun a => p a && q a) l.
Proof.
  induction l as [|a l IH]; simpl; [reflexivity|].
  destruct (p a); simpl; [destruct (q a)|]; rewrite IH; reflexivity.
Qed.

(** For a name without an apostrophe the locator returns the first
    top-level circuit of that name, or [None]; it does not raise. *)
Lemma find_circuit_path root name :
  quote_free name ->
  ElementPath.find root (circuit_path name) = Ok (first_circuit name root).
Proof.
  intros H. unfold ElementPath.find, ElementPath.iterfind.
  rewrite (compile_circuit_path name H).
  cbn [ElementPath.run_selectors ElementPath.select flat_map
       ElementPath.select_child].
  rewrite app_nil_r, filter_filter, hd_error_filter. reflexivity.
Qed.

(** ** Elements, copies and identities *)

Lemma Element_induction (P : Element -> Prop) :
  (forall i t a x y cs, Forall P cs -> P (mkElement i t a x y cs)) ->
  forall e, P e.
Proof.
  intros H. fix IH 1. intros [i t a x y cs]. apply H.
  induction cs as [|c cs IHcs]; constructor; [apply IH | exact IHcs].
Qed.

Lemma ids_unfold i t a x y cs :
  ids (mkElement i t a x y cs) = i :: flat_map ids cs.
Proof.
  unfold ids. cbn [iter map]. f_equal.
  induction cs as [|c cs IH]; [reflexivity|].
  cbn [flat_map]. rewrite map_app, IH. reflexivity.
Qed.

Lemma ids_children e : ids e = eid e :: flat_map ids (children e).
Proof. destruct e. apply ids_unfold. Qed.

Lemma deepcopy_unfold i t a x y cs n :
  deepcopy (mkElement i t a x y cs) n
  = let (cs', n') := deepcopy_all cs (S n) in (mkElement n t a x y cs', n').
Proof.
  cbn [deepcopy].
  match goal with
  | |- (let (_, _) := ?f cs (S n) in _) = _ =>
      assert (E : forall l m, f l m = deepcopy_all l m)
  end.
  { induction l as [|c l IH]; intros m; [reflexivity|].
    cbn. destruct (deepcopy c m) as [c' m1].
    rewrite IH. reflexivity. }
  rewrite E. reflexivity.
Qed.

(** A copy holds what the original holds, in the objects [n], [n+1],
    ... up to the address the copy returns. *)
Lemma deepcopy_spec e :
  forall n, content (fst (deepcopy e n)) = content e
            /\ ids (fst (deepcopy e n)) = seq n (List.length (ids e))
            /\ snd (deepcopy e n) = n + List.length (ids e).
Proof.
  induction e as [i t a x y cs IH] using Element_induction. intros n.
  rewrite deepcopy_unfold.
  assert (L : forall m,
    map content (fst (deepcopy_all cs m)) = map content cs
    /\ flat_map ids (fst (deepcopy_all cs m))
       = seq m (List.length (flat_map ids cs))
    /\ snd (deepcopy_all cs m) = m + List.length (flat_map ids cs)).
  { induction IH as [|c l Hc _ IHl]; intros m.
    - cbn. rewrite Nat.add_0_r. auto.
    - cbn [deepcopy_all]. destruct (Hc m) as (C1 & C2 & C3).
      destruct (deepcopy c m) as [c' m1]. cbn [fst snd] in *.
      destruct (IHl m1) as (L1 & L2 & L3).
      destruct (deepcopy_all l m1) as [r m2]. cbn [fst snd] in *.
      cbn [map flat_map]. rewrite C1, L1, C2, L2, !length_app, seq_app.
      subst. repeat split; try reflexivity. lia. }
  destruct (L (S n)) as (L1 & L2 & L3).
  destruct (deepcopy_all cs (S n)) as [cs' n']. cbn [fst snd] in *.
  rewrite !ids_unfold, L2. cbn [content List.length seq].
  rewrite L1. repeat split; try reflexivity. lia.
Qed.

Lemma deepcopy_content e n : content (fst (deepcopy e n)) = content e.
Proof. apply deepcopy_spec. Qed.

Lemma deepcopy_ids e n :
  ids (fst (deepcopy e n)) = seq n (List.length (ids e)).
Proof. apply deepcopy_spec. Qed.

Lemma deepcopy_next e n : snd (deepcopy e n) = n + List.length (ids e).
Proof. apply deepcopy_spec. Qed.

Lemma content_tag e e' : content e = content e' -> tag e = tag e'.
Proof. destruct e, e'; cbn; congruence. Qed.

Lemma content_attrib e e' : content e = content e' -> attrib e = attrib e'.
Proof. destruct e, e'; cbn; congruence. Qed.

Lemma content_get e e' k : content e = content e' -> get e k = get e' k.
Proof. intros H. unfold get. rewrite (content_attrib _ _ H). reflexivity. Qed.

Lemma content_named e e' name :
  content e = content e' ->
  is_circuit_named name e = is_circuit_named name e'.
Proof.
  intros H. unfold is_circuit_named.
  rewrite (content_tag _ _ H), (content_get _ _ "name" H). reflexivity.
Qed.

Lemma ids_length_pos e : 0 < List.length (ids e).
Proof. rewrite ids_children. cbn. lia. Qed.

Lemma dict_get_set k v d : dict_get k (dict_set k v d) = Some v.
Proof.
  induction d as [|[k' v'] d IH]; cbn.
  - rewrite String.eqb_refl. reflexivity.
  - destruct (String.eqb k' k) eqn:E; cbn; rewrite E; [reflexivity | exact IH].
Qed.

Lemma get_set e k v : get (set e k v) k = Some v.
Proof. destruct e. apply dict_get_set. Qed.

Lemma tag_set e k v : tag (set e k v) = tag e.
Proof. destruct e. reflexivity. Qed.

Lemma ids_set e k v : ids (set e k v) = ids e.
Proof. destruct e. cbn [set]. rewrite !ids_unfold. reflexivity. Qed.

Lemma eid_set e k v : eid (set e k v) = eid e.
Proof. destruct e. reflexivity. Qed.

Lemma content_set e e' k v :
  content e = content e' -> content (set e k v) = content (set e' k v).
Proof. destruct e, e'; cbn; congruence. Qed.

(** A change through a reference to an object that a tree does not
    hold leaves the tree as it is. *)
Lemma mutate_absent i g e : ~ In i (ids e) -> mutate i g e = e.
Proof.
  induction e as [j t a x y cs IH] using Element_induction.
  rewrite ids_unfold. intros H. cbn [mutate].
  destruct (Nat.eqb_spec j i) as [->|_]; [exfalso; apply H; left; reflexivity|].
  f_equal. rewrite <- (map_id cs) at 2. apply map_ext_in. intros c Hc.
  rewrite Forall_forall in IH. apply IH; [exact Hc|].
  intros Hi. apply H. right. apply in_flat_map. eauto.
Qed.

(** ** The state of the two documents *)

Lemma nodupb_NoDup l : nodupb l = true -> NoDup l.
Proof.
  induction l as [|i l IH]; cbn; intros H; constructor;
    apply andb_prop in H as [H1 H2].
  - intros Hin. apply negb_true_iff in H1.
    assert (existsb (Nat.eqb i) l = true); [|congruence].
    apply existsb_exists. exists i. split; [exact Hin | apply Nat.eqb_refl].
  - auto.
Qed.

Lemma wfb_wf st : wfb st = true -> wf st.
Proof.
  unfold wfb, wf. intros H. apply andb_prop in H as [H1 H2]. split.
  - apply nodupb_NoDup, H1.
  - apply Forall_forall. intros i Hi.
    rewrite forallb_forall in H2. apply Nat.ltb_lt, H2, Hi.
Qed.

Lemma nodup_strb_NoDup l : nodup_strb l = true -> NoDup l.
Proof.
  induction l as [|i l IH]; cbn; intros H; constructor;
    apply andb_prop in H as [H1 H2].
  - intros Hin. apply negb_true_iff in H1.
    assert (existsb (String.eqb i) l = true); [|congruence].
    apply existsb_exists. exists i. split; [exact Hin | apply String.eqb_refl].
  - auto.
Qed.

Lemma In_eid_ids e : In (eid e) (ids e).
Proof. rewrite ids_children. left. reflexivity. Qed.

Lemma NoDup_eids cs : NoDup (flat_map ids cs) -> NoDup (map eid cs).
Proof.
  induction cs as [|c cs IH]; cbn; intros H; constructor.
  - rewrite ids_children in H. cbn in H. apply NoDup_cons_iff in H as [H _].
    intros Hin. apply H. apply in_or_app. right.
    apply in_map_iff in Hin as (x & Ex & Hx).
    apply in_flat_map. exists x. split; [exact Hx|].
    rewrite <- Ex. apply In_eid_ids.
  - apply IH. eapply NoDup_app_remove_l, H.
Qed.

Lemma remove_first_named name cs d :
  NoDup (map eid cs) ->
  List.find (is_circuit_named name) cs = Some d ->
  remove_first (eid d) cs = Some (remove_named name cs).
Proof.
  induction cs as [|c cs IH]; cbn; intros N F; [discriminate|].
  apply NoDup_cons_iff in N as [N1 N2].
  destruct (is_circuit_named name c).
  - injection F as <-. rewrite Nat.eqb_refl. reflexivity.
  - destruct (Nat.eqb_spec (eid c) (eid d)) as [E|_].
    + exfalso. apply N1. rewrite E. apply in_map.
      apply find_some in F. apply F.
    + rewrite (IH N2 F). reflexivity.
Qed.

Lemma remove_named_absent name cs :
  List.find (is_circuit_named name) cs = None -> remove_named name cs = cs.
Proof.
  induction cs as [|c cs IH]; cbn; [reflexivity|].
  destruct (is_circuit_named name c); [discriminate|].
  intros F. rewrite (IH F). reflexivity.
Qed.

Lemma wf_dst_children st :
  wf st -> NoDup (map eid (children (dst_root st))).
Proof.
  intros [N _]. apply NoDup_app_remove_l in N.
  rewrite ids_children in N. apply NoDup_cons_iff in N as [_ N].
  apply NoDup_eids, N.
Qed.

Lemma remove_existing root final :
  NoDup (map eid (children root)) ->
  match first_circuit final root with
  | Some d => remove root d
  | None => Ok root
  end = Ok (without_named root final).
Proof.
  intros N. unfold first_circuit.
  destruct root as [i t a x y cs]. cbn [children] in *.
  destruct (List.find (is_circuit_named final) cs) as [d|] eqn:Fd.
  - cbn [remove]. rewrite (remove_first_named final cs d N Fd). reflexivity.
  - cbn [without_named]. rewrite (remove_named_absent final cs Fd).
    reflexivity.
Qed.

Lemma append_without root final clone :
  ElementTree.append (without_named root final) clone
  = replaced root final clone.
Proof. destruct root. reflexivity. Qed.

(** What a transfer does when neither name has an apostrophe and the
    source has the circuit: it succeeds, and the destination is the
    old one with the circuit of the final name replaced by the clone
    at the end. *)
Lemma copy_to_dst_ok st name new_name a :
  quote_free name -> quote_free (final_name name new_name) ->
  wf st ->
  first_circuit name (src_root st) = Some a ->
  copy_to_dst st name new_name
  = (Ok tt,
     mkState (src_root st)
       (replaced (dst_root st) (final_name name new_name)
                 (renamed new_name (fst (deepcopy a (next_id st)))))
       (next_id st + List.length (ids a))).
Proof.
  intros Q1 Q2 W F. unfold copy_to_dst, get_src_circuit, get_dst_circuit.
  rewrite (find_circuit_path _ name Q1), F.
  pose proof (deepcopy_next a (next_id st)) as Hn.
  destruct (deepcopy a (next_id st)) as [clone n]. cbn [fst snd] in *. subst n.
  pose proof (wf_dst_children st W) as N.
  destruct new_name as [nn|]; cbn [final_name renamed] in *;
    cbn [src_root dst_root next_id];
    rewrite (find_circuit_path _ _ Q2), (remove_existing _ _ N),
      append_without; reflexivity.
Qed.

(** ** A transfer keeps the objects apart *)

Lemma NoDup_app_del {A} (a b c : list A) :
  NoDup (a ++ b ++ c) -> NoDup (a ++ c).
Proof.
  induction a as [|h a IH]; cbn; intros H.
  - eapply NoDup_app_remove_l, H.
  - apply NoDup_cons_iff in H as [H1 H2]. constructor; [|auto].
    intros Hin. apply H1. apply in_app_or in Hin as [Hin|Hin];
      apply in_or_app; [left | right; apply in_or_app; right]; exact Hin.
Qed.

Lemma remove_first_ids i cs : forall cs' pre,
  remove_first i cs = Some cs' ->
  NoDup (pre ++ flat_map ids cs) ->
  NoDup (pre ++ flat_map ids cs')
  /\ incl (flat_map ids cs') (flat_map ids cs).
Proof.
  induction cs as [|c cs IH]; cbn [remove_first]; intros cs' pre R N;
    [discriminate|].
  cbn [flat_map] in *. destruct (Nat.eqb (eid c) i).
  - injection R as <-. split.
    + eapply NoDup_app_del, N.
    + apply incl_appr, incl_refl.
  - destruct (remove_first i cs) as [r|] eqn:Er; [|discriminate].
    injection R as <-. cbn [flat_map].
    rewrite app_assoc in N. destruct (IH r (pre ++ ids c) eq_refl N) as [N' I].
    rewrite <- app_assoc in N'. split; [exact N'|].
    apply incl_app; [apply incl_appl, incl_refl | apply incl_appr, I].
Qed.

Lemma remove_ids root d root' pre :
  remove root d = Ok root' ->
  NoDup (pre ++ ids root) ->
  NoDup (pre ++ ids root') /\ incl (ids root') (ids root).
Proof.
  destruct root as [i t a x y cs]. cbn [remove].
  destruct (remove_first (eid d) cs) as [cs'|] eqn:R; [|discriminate].
  intros E N. injection E as <-. rewrite !ids_unfold in *.
  change (pre ++ i :: flat_map ids cs) with (pre ++ [i] ++ flat_map ids cs) in N.
  rewrite app_assoc in N.
  destruct (remove_first_ids _ _ _ _ R N) as [N' I]. split.
  - rewrite <- app_assoc in N'. exact N'.
  - intros z [<-|Hz]; [left; reflexivity | right; apply I, Hz].
Qed.

Lemma ids_append root c : ids (ElementTree.append root c) = ids root ++ ids c.
Proof.
  destruct root as [i t a x y cs]. cbn [ElementTree.append].
  rewrite !ids_unfold, flat_map_app. cbn [flat_map].
  rewrite app_nil_r. reflexivity.
Qed.

Lemma wf_alloc s d n n' : wf (mkState s d n) -> n <= n' -> wf (mkState s d n').
Proof.
  intros [N B] L. split; [exact N|]. cbn [src_root dst_root next_id] in *.
  eapply Forall_impl; [|exact B]. cbn. intros; lia.
Qed.

(** Appending a fresh copy to a destination that lost at most some
    objects keeps the state well formed. *)
Lemma wf_append s d d' e n clone :
  wf (mkState s d n) ->
  NoDup (ids s ++ ids d') -> incl (ids d') (ids d) ->
  ids clone = seq n (List.length (ids e)) ->
  wf (mkState s (ElementTree.append d' clone) (n + List.length (ids e))).
Proof.
  intros [N B] N' I C. cbn [src_root dst_root next_id] in *.
  assert (B' : Forall (fun i => i < n) (ids s ++ ids d')).
  { apply Forall_forall. intros z Hz. rewrite Forall_forall in B. apply B.
    apply in_app_or in Hz as [Hz|Hz]; apply in_or_app; auto. }
  split; cbn [src_root dst_root next_id]; rewrite ids_append, app_assoc.
  - apply NoDup_app; [exact N' | rewrite C; apply seq_NoDup |].
    intros z Hz. rewrite C, in_seq. rewrite Forall_forall in B'.
    apply B' in Hz. lia.
  - apply Forall_app. split.
    + eapply Forall_impl; [|exact B']. cbn. intros; lia.
    + rewrite C. apply Forall_forall. intros z Hz. apply in_seq in Hz. lia.
Qed.

Lemma ids_renamed nn e : ids (renamed nn e) = ids e.
Proof. destruct nn; [apply ids_set | reflexivity]. Qed.

(** Whatever the names and whatever the outcome, a call of
    [copy_to_dst] leaves the source as it was and the state well
    formed. *)
Lemma copy_to_dst_wf st name new_name :
  wf st ->
  wf (snd (copy_to_dst st name new_name))
  /\ src_root (snd (copy_to_dst st name new_name)) = src_root st.
Proof.
  intros W. unfold copy_to_dst.
  destruct (get_src_circuit st name) as [[a|]|e]; [|auto|auto].
  pose proof (deepcopy_spec a (next_id st)) as (_ & Hi & Hn).
  destruct (deepcopy a (next_id st)) as [clone n]. cbn [fst snd] in *.
  assert (W1 : wf (mkState (src_root st) (dst_root st) n)).
  { destruct st. apply (wf_alloc _ _ _ _ W). cbn in Hn. lia. }
  set (cf := match new_name with
             | Some nn => (set clone "name" nn, nn)
             | None => (clone, name)
             end).
  assert (Hc : ids (fst cf) = seq (next_id st) (List.length (ids a))).
  { destruct new_name; cbn [cf fst]; [rewrite ids_set|]; exact Hi. }
  destruct cf as [clone' final]. cbn [fst] in Hc.
  destruct (get_dst_circuit _ final) as [dst_existing|e]; [|auto].
  cbn [dst_root src_root].
  assert (W0 : wf (mkState (src_root st) (dst_root st) (next_id st))).
  { destruct st; exact W. }
  destruct dst_existing as [d|].
  - destruct (remove (dst_root st) d) as [root|e] eqn:R; [|auto].
    cbn [snd src_root]. split; [|reflexivity]. subst n.
    destruct (remove_ids _ _ _ (ids (src_root st)) R (proj1 W)) as [N I].
    eapply wf_append; eauto.
  - cbn [snd src_root]. split; [|reflexivity]. subst n.
    eapply wf_append; eauto; [apply W | apply incl_refl].
Qed.

(** ** Names of the top-level circuits after a transfer *)

Lemma is_circuit_named_name name c :
  is_circuit_named name c = true <-> circuit_name c = [name].
Proof.
  unfold is_circuit_named, circuit_name.
  destruct (String.eqb (tag c) "circuit"); cbn [andb]; [|split; discriminate].
  destruct (get c "name") as [v|]; [|split; discriminate].
  rewrite String.eqb_eq. split; congruence.
Qed.

Lemma circuit_name_cases c :
  circuit_name c = [] \/ exists v, circuit_name c = [v].
Proof.
  unfold circuit_name. destruct (String.eqb (tag c) "circuit"); [|auto].
  destruct (get c "name"); eauto.
Qed.

Lemma names_remove_named final cs :
  NoDup (flat_map circuit_name cs) ->
  NoDup (flat_map circuit_name (remove_named final cs))
  /\ ~ In final (flat_map circuit_name (remove_named final cs))
  /\ incl (flat_map circuit_name (remove_named final cs))
          (flat_map circuit_name cs).
Proof.
  induction cs as [|c cs IH]; cbn [remove_named flat_map]; intros N.
  - repeat split; [constructor | intros [] | apply incl_refl].
  - destruct (is_circuit_named final c) eqn:E.
    + apply is_circuit_named_name in E. rewrite E in *. cbn in N.
      apply NoDup_cons_iff in N as [N1 N2].
      repeat split; [exact N2 | exact N1 | apply incl_appr, incl_refl].
    + destruct (IH (NoDup_app_remove_l _ _ N)) as (I1 & I2 & I3).
      cbn [flat_map]. repeat split.
      * destruct (circuit_name_cases c) as [C|[v C]]; rewrite C in *;
          [exact I1|]. cbn in *. apply NoDup_cons_iff in N as [N1 _].
        constructor; [|exact I1]. intros Hin. apply N1, I3, Hin.
      * intros Hin. apply in_app_or in Hin as [Hin|Hin]; [|auto].
        destruct (circuit_name_cases c) as [C|[v C]]; rewrite C in Hin;
          [destruct Hin|].
        destruct Hin as [->|[]]. apply is_circuit_named_name in C. congruence.
      * apply incl_app; [apply incl_appl, incl_refl | apply incl_appr, I3].
Qed.

Lemma unique_names_replaced root final clone :
  unique_names root ->
  circuit_name clone = [final] \/ circuit_name clone = [] ->
  unique_names (replaced root final clone).
Proof.
  unfold unique_names, circuit_names. destruct root as [i t a x y cs].
  cbn [children replaced]. intros N C.
  destruct (names_remove_named final cs N) as (I1 & I2 & _).
  rewrite flat_map_app. cbn [flat_map]. rewrite app_nil_r.
  destruct C as [C|C]; rewrite C; [|rewrite app_nil_r; exact I1].
  apply NoDup_app; [exact I1 | repeat constructor; intros [] |].
  intros z Hz [<-|[]]. auto.
Qed.

(** A successful transfer whose final name has no apostrophe: the
    element the source locator returned is cloned, and the clone, under
    the final name, replaces the destination circuit of that name. *)
Lemma copy_to_dst_shape st name new_name st' :
  wf st -> quote_free (final_name name new_name) ->
  copy_to_dst st name new_name = (Ok tt, st') ->
  exists e,
    get_src_circuit st name = Ok (Some e)
    /\ st' = mkState (src_root st)
               (replaced (dst_root st) (final_name name new_name)
                         (renamed new_name (fst (deepcopy e (next_id st)))))
               (next_id st + List.length (ids e)).
Proof.
  intros W Q. unfold copy_to_dst.
  destruct (get_src_circuit st name) as [[e|]|x]; [|discriminate|discriminate].
  intros H. exists e. split; [reflexivity|]. revert H.
  pose proof (deepcopy_next e (next_id st)) as Hn.
  destruct (deepcopy e (next_id st)) as [clone n]. cbn [fst snd] in *. subst n.
  pose proof (wf_dst_children st W) as N. unfold get_dst_circuit.
  destruct new_name as [nn|]; cbn [final_name renamed] in *;
    cbn [src_root dst_root next_id];
    rewrite (find_circuit_path _ _ Q), (remove_existing _ _ N),
      append_without; intros H; injection H as <-; reflexivity.
Qed.

Lemma find_named {A} (p : A -> bool) l a : List.find p l = Some a -> p a = true.
Proof. intros H. apply find_some in H. apply H. Qed.

Lemma unique_names_copy_to_dst st name new_name st' :
  wf st -> unique_names (dst_root st) ->
  quote_free (final_name name new_name) ->
  copy_to_dst st name new_name = (Ok tt, st') ->
  unique_names (dst_root st').
Proof.
  intros W U Q H.
  destruct (copy_to_dst_shape _ _ _ _ W Q H) as (e & Hs & ->).
  cbn [dst_root]. apply unique_names_replaced; [exact U|].
  destruct new_name as [nn|]; cbn [final_name renamed] in *.
  - unfold circuit_name. rewrite tag_set, get_set.
    destruct (String.eqb _ _); auto.
  - left. apply is_circuit_named_name.
    rewrite (content_named _ e name (deepcopy_content e _)).
    unfold get_src_circuit in Hs. rewrite (find_circuit_path _ _ Q) in Hs.
    injection Hs as Hs. apply (find_named _ _ _ Hs).
Qed.

Lemma copy_all_cons st n rest st' :
  copy_all st (n :: rest) = (Ok tt, st') ->
  exists st1, copy_to_dst st n None = (Ok tt, st1)
              /\ copy_all st1 rest = (Ok tt, st').
Proof.
  cbn [copy_all]. destruct (copy_to_dst st n None) as [[[]|e] st1];
    [eauto | discriminate].
Qed.

(** C1, as stated, fails: a Logisim project names its main circuit in
    [<main name="main"/>] next to [<circuit name="main">]; the top-level
    circuit names are unique, the transfer of "A" succeeds, and two
    top-level children of the destination share the name "main". *)
Lemma C1_counterexample :
  let st := loaded (project [circuit "A" []])
                   (project [leaf "main" [("name", "main")];
                             circuit "main" []]) in
  unique_names (src_root st) /\ unique_names (dst_root st)
  /\ exists st', copy_to_dst st "A" None = (Ok tt, st')
                 /\ top_level_names (dst_root st') = ["main"; "main"; "A"]
                 /\ ~ NoDup (top_level_names (dst_root st')).
Proof.
  cbv zeta. split; [apply nodup_strb_NoDup; reflexivity|].
  split; [apply nodup_strb_NoDup; reflexivity|].
  eexists. split; [vm_compute; reflexivity|].
  split; [reflexivity|]. vm_compute. intros N.
  apply NoDup_cons_iff in N as [N _]. apply N. left. reflexivity.
Qed.

(** C1, amended: when the top-level circuit names of the destination
    are unique, they are unique again after a successful [copy_to_dst]
    whose final name has no apostrophe, and after a successful batch of
    names without apostrophes.  (Top-level children that are not
    circuits are not covered: the locator looks at circuits only.) *)
Theorem C1_unique_circuit_names :
  forall st, wf st -> unique_names (dst_root st) ->
  (forall name new_name st',
      quote_free (final_name name new_name) ->
      copy_to_dst st name new_name = (Ok tt, st') ->
      unique_names (dst_root st'))
  /\ (forall names st',
      Forall quote_free names ->
      copy_all st names = (Ok tt, st') ->
      unique_names (dst_root st')).
Proof.
  intros st W U. split.
  - intros name new_name st' Q H.
    exact (unique_names_copy_to_dst _ _ _ _ W U Q H).
  - intros names. revert st W U.
    induction names as [|n rest IH]; intros st W U st' Q H.
    + cbn in H. injection H as <-. exact U.
    + apply copy_all_cons in H as (st1 & H1 & H2).
      apply Forall_cons_iff in Q as [Qn Qr].
      apply (IH st1); [| |exact Qr|exact H2].
      * pose proof (copy_to_dst_wf st n None W) as [W1 _].
        rewrite H1 in W1. exact W1.
      * exact (unique_names_copy_to_dst st n None st1 W U Qn H1).
Qed.

Lemma C1_unique_circuit_names_witness :
  let st := loaded (project [circuit "A" []; circuit "B" []])
                   (project [leaf "main" [("name", "main")];
                             circuit "main" []; circuit "A" []]) in
  wf st /\ unique_names (dst_root st)
  /\ unique_names (dst_root (snd (copy_to_dst st "A" (Some "main"))))
  /\ unique_names (dst_root (snd (copy_all st ["A"; "B"]))).
Proof.
  cbv zeta.
  assert (W : wf (loaded (project [circuit "A" []; circuit "B" []])
                   (project [leaf "main" [("name", "main")];
                             circuit "main" []; circuit "A" []])))
    by (apply wfb_wf; reflexivity).
  assert (U : unique_names (dst_root
                (loaded (project [circuit "A" []; circuit "B" []])
                   (project [leaf "main" [("name", "main")];
                             circuit "main" []; circuit "A" []]))))
    by (apply nodup_strb_NoDup; reflexivity).
  split; [exact W|]. split; [exact U|]. split.
  - apply (proj1 (C1_unique_circuit_names _ W U) "A" (Some "main"));
      reflexivity.
  - apply (proj2 (C1_unique_circuit_names _ W U) ["A"; "B"]);
      [repeat constructor | reflexivity].
Defined.

(** ** Failure at the source locator *)

Lemma first_circuit_None name root :
  first_circuit name root = None
  <-> forall c, In c (children root) -> is_circuit_named name c = false.
Proof.
  unfold first_circuit. split.
  - intros H c Hc. exact (find_none _ _ H c Hc).
  - intros H. destruct (List.find _ _) as [c|] eqn:F; [|reflexivity].
    apply find_some in F as [F1 F2]. rewrite (H c F1) in F2. discriminate.
Qed.

(** For a name without an apostrophe the source locator reports
    not-found exactly when no top-level circuit has that name. *)
Lemma get_src_circuit_not_found st name :
  quote_free name ->
  (get_src_circuit st name = Ok None
   <-> forall c, In c (children (src_root st)) ->
                 is_circuit_named name c = false).
Proof.
  intros Q. unfold get_src_circuit. rewrite (find_circuit_path _ _ Q).
  rewrite <- first_circuit_None. split; congruence.
Qed.

Lemma copy_to_dst_not_found st name new_name :
  get_src_circuit st name = Ok None ->
  copy_to_dst st name new_name
  = (Raise (ValueError ("Circuit '" ++ name ++ "' not found in source")), st).
Proof. intros H. unfold copy_to_dst. rewrite H. reflexivity. Qed.

(** C2 at names with apostrophes.  No top-level circuit of the source
    has the name [A'][@name='A], yet the path built from it reads
    [./circuit[@name='A'][@name='A']]: the source locator returns
    circuit "A", [copy_to_dst] succeeds and the destination gets a
    copy of it; nothing reports that the name was not found.  No
    circuit has the name [a'b] either, and there the call raises
    [SyntaxError("invalid predicate")] from the path parser, not the
    not-found error that quotes the name (the documents stay as they
    were). *)
Lemma C2_unmatched_name_not_reported :
  let st := loaded (project [circuit "A" [leaf "wire" []]])
                   (project [circuit "B" []]) in
  (forall c, In c (children (src_root st)) ->
             is_circuit_named "A'][@name='A" c = false
             /\ is_circuit_named "a'b" c = false)
  /\ (exists st',
        copy_to_dst st "A'][@name='A" None = (Ok tt, st')
        /\ content (dst_root st')
           = project [circuit "B" []; circuit "A" [leaf "wire" []]]
        /\ content (dst_root st') <> content (dst_root st))
  /\ copy_to_dst st "a'b" None = (Raise (SyntaxError InvalidPredicate), st).
Proof.
  cbv zeta. split; [|split].
  - intros c [<-|[]]. split; reflexivity.
  - eexists. split; [vm_compute; reflexivity|].
    split; [reflexivity | vm_compute; discriminate].
  - reflexivity.
Qed.

(** ** A transfer appends the clone and keeps the rest *)

Lemma children_replaced root final clone :
  children (replaced root final clone)
  = remove_named final (children root) ++ [clone].
Proof. destruct root. reflexivity. Qed.

(** C3: with the circuit "A" in the source ([a], the one the locator
    finds), the transfer of "A" succeeds and the top-level children of
    the destination are the old ones without the circuit "A", in their
    order, followed by the clone, which holds what [a] holds.  For a
    destination with the children "B" and "C" that is "B", "C", "A". *)
Theorem C3_transfer_appends_last :
  forall st a,
    wf st -> first_circuit "A" (src_root st) = Some a ->
    exists st' a',
      copy_to_dst st "A" None = (Ok tt, st')
      /\ content a' = content a
      /\ children (dst_root st')
         = remove_named "A" (children (dst_root st)) ++ [a']
      /\ (forall b c,
            children (dst_root st) = [b; c] ->
            get b "name" = Some "B" -> get c "name" = Some "C" ->
            children (dst_root st') = [b; c; a']
            /\ top_level_names (dst_root st') = ["B"; "C"; "A"]).
Proof.
  intros st a W F.
  assert (Q : quote_free "A") by reflexivity.
  pose proof (copy_to_dst_ok st "A" None a Q Q W F) as H.
  cbn [final_name renamed] in H.
  eexists. exists (fst (deepcopy a (next_id st))).
  split; [exact H|]. cbn [dst_root].
  split; [apply deepcopy_content|].
  split; [apply children_replaced|].
  intros b c E Hb Hc. rewrite children_replaced.
  unfold top_level_names. rewrite children_replaced, E.
  assert (Nb : is_circuit_named "A" b = false).
  { unfold is_circuit_named. rewrite Hb. apply andb_false_r. }
  assert (Nc : is_circuit_named "A" c = false).
  { unfold is_circuit_named. rewrite Hc. apply andb_false_r. }
  cbn [remove_named]. rewrite Nb, Nc. split; [reflexivity|].
  cbn [app flat_map]. rewrite Hb, Hc.
  rewrite (content_get _ a "name" (deepcopy_content a _)).
  apply (find_named _ _ _) in F. unfold is_circuit_named in F.
  apply andb_prop in F as [_ F]. destruct (get a "name") as [v|]; [|discriminate].
  apply String.eqb_eq in F. subst v. reflexivity.
Qed.

Lemma C3_transfer_appends_last_witness :
  let st := loaded (project [circuit "A" [leaf "wire" [("from", "(10,10)")]]])
                   (project [circuit "B" []; circuit "C" []]) in
  wf st
  /\ exists a, first_circuit "A" (src_root st) = Some a
  /\ exists st' a',
      copy_to_dst st "A" None = (Ok tt, st')
      /\ content a' = content a
      /\ children (dst_root st')
         = remove_named "A" (children (dst_root st)) ++ [a']
      /\ (forall b c,
            children (dst_root st) = [b; c] ->
            get b "name" = Some "B" -> get c "name" = Some "C" ->
            children (dst_root st') = [b; c; a']
            /\ top_level_names (dst_root st') = ["B"; "C"; "A"]).
Proof.
  cbv zeta. split; [apply wfb_wf; reflexivity|].
  eexists. split; [reflexivity|].
  apply C3_transfer_appends_last; [apply wfb_wf; reflexivity | reflexivity].
Defined.

(** ** Replacement *)

Lemma NoDup_app_disjoint {A} (x y : list A) z :
  NoDup (x ++ y) -> In z x -> ~ In z y.
Proof.
  induction x as [|h x IH]; cbn; intros N Hx Hy; [destruct Hx|].
  apply NoDup_cons_iff in N as [N1 N2]. destruct Hx as [->|Hx].
  - apply N1, in_or_app. right. exact Hy.
  - exact (IH N2 Hx Hy).
Qed.

Lemma unique_first name cs d :
  NoDup (flat_map circuit_name cs) ->
  In d cs -> is_circuit_named name d = true ->
  List.find (is_circuit_named name) cs = Some d.
Proof.
  induction cs as [|c cs IH]; cbn [flat_map In List.find]; intros N I D;
    [destruct I|].
  destruct (is_circuit_named name c) eqn:E.
  - destruct I as [->|I]; [reflexivity|]. exfalso.
    apply is_circuit_named_name in E. rewrite E in N. cbn in N.
    apply NoDup_cons_iff in N as [N _]. apply N.
    apply in_flat_map. exists d. split; [exact I|].
    apply is_circuit_named_name in D. rewrite D. left. reflexivity.
  - destruct I as [->|I]; [congruence|].
    apply IH; [eapply NoDup_app_remove_l, N | exact I | exact D].
Qed.

Lemma remove_named_split name cs d :
  List.find (is_circuit_named name) cs = Some d ->
  exists l1 l2, cs = l1 ++ d :: l2 /\ remove_named name cs = l1 ++ l2.
Proof.
  induction cs as [|c cs IH]; cbn [List.find remove_named]; [discriminate|].
  destruct (is_circuit_named name c).
  - intros E. injection E as <-. exists [], cs. split; reflexivity.
  - intros F. destruct (IH F) as (l1 & l2 & -> & ->).
    exists (c :: l1), l2. split; reflexivity.
Qed.

Lemma find_app_last {A} (p : A -> bool) l a :
  (forall x, In x l -> p x = false) -> p a = true ->
  List.find p (l ++ [a]) = Some a /\ filter p (l ++ [a]) = [a].
Proof.
  induction l as [|h l IH]; cbn; intros N P.
  - rewrite P. split; reflexivity.
  - rewrite (N h (or_introl eq_refl)). apply IH; auto.
Qed.

Lemma remove_named_none_left final cs :
  NoDup (flat_map circuit_name cs) ->
  forall x, In x (remove_named final cs) -> is_circuit_named final x = false.
Proof.
  intros N x Hx. destruct (names_remove_named final cs N) as (_ & I & _).
  destruct (is_circuit_named final x) eqn:E; [|reflexivity].
  exfalso. apply I. apply in_flat_map. exists x. split; [exact Hx|].
  apply is_circuit_named_name in E. rewrite E. left. reflexivity.
Qed.

(** C4, as stated, fails on a destination with two circuits "A"
    (payloads p1 and p3): the transfer removes the first only, and the
    destination's "A", as the locator finds it afterwards, is the old
    second circuit with payload p3, not the source's payload p2. *)
Lemma C4_counterexample :
  let st := loaded (project [circuit "A" [leaf "p2" []]])
                   (project [circuit "A" [leaf "p1" []];
                             circuit "A" [leaf "p3" []]]) in
  exists st' x,
    copy_to_dst st "A" None = (Ok tt, st')
    /\ get_dst_circuit st' "A" = Ok (Some x)
    /\ In x (children (dst_root st))
    /\ content x = circuit "A" [leaf "p3" []]
    /\ content x <> circuit "A" [leaf "p2" []].
Proof.
  cbv zeta. eexists. eexists.
  split; [vm_compute; reflexivity|].
  split; [vm_compute; reflexivity|].
  split; [right; left; reflexivity|].
  split; [reflexivity | discriminate].
Qed.

(** C4, amended: when the top-level circuit names of the destination
    are unique, [d] is its circuit "A" and [a] is the circuit "A" that
    the locator finds in the source, then after the transfer the
    destination's circuit "A" is the clone [a'], which holds exactly
    what [a] holds; it is the only circuit "A"; no object of the old
    unit [d] is left in the destination, and no object of the clone was
    in the destination before. *)
Theorem C4_replacement :
  forall st a d,
    wf st -> unique_names (dst_root st) ->
    first_circuit "A" (src_root st) = Some a ->
    In d (children (dst_root st)) -> is_circuit_named "A" d = true ->
    exists st' a',
      copy_to_dst st "A" None = (Ok tt, st')
      /\ get_dst_circuit st' "A" = Ok (Some a')
      /\ content a' = content a
      /\ filter (is_circuit_named "A") (children (dst_root st')) = [a']
      /\ (forall i, In i (ids d) -> ~ In i (ids (dst_root st')))
      /\ (forall i, In i (ids a') -> ~ In i (ids (dst_root st))).
Proof.
  intros st a d W U F I D.
  assert (Q : quote_free "A") by reflexivity.
  pose proof (copy_to_dst_ok st "A" None a Q Q W F) as H.
  cbn [final_name renamed] in H.
  pose proof (deepcopy_spec a (next_id st)) as (Hc & Hi & _).
  set (a' := fst (deepcopy a (next_id st))) in *.
  eexists. exists a'. split; [exact H|].
  assert (Na : is_circuit_named "A" a' = true).
  { rewrite (content_named _ a "A" Hc). exact (find_named _ _ _ F). }
  pose proof (find_app_last (is_circuit_named "A")
                (remove_named "A" (children (dst_root st))) a'
                (remove_named_none_left "A" _ U) Na) as [Fd Fl].
  unfold get_dst_circuit. cbn [dst_root].
  rewrite (find_circuit_path _ _ Q). unfold first_circuit.
  rewrite children_replaced.
  split; [rewrite Fd; reflexivity|].
  split; [exact Hc|]. split; [exact Fl|].
  destruct W as [N B]. rewrite Forall_forall in B.
  split.
  - intros i Hi'. rewrite ids_children, children_replaced.
    pose proof (unique_first "A" _ d U I D) as Fd'.
    destruct (remove_named_split _ _ _ Fd') as (l1 & l2 & E1 & E2).
    rewrite E2. apply NoDup_app_remove_l in N.
    rewrite ids_children, E1 in N.
    replace (eid (replaced (dst_root st) "A" a')) with (eid (dst_root st))
      by (destruct (dst_root st); reflexivity).
    rewrite !flat_map_app in *. cbn [flat_map] in *. rewrite app_nil_r.
    intros [E|Hin].
    + apply NoDup_cons_iff in N as [N _]. apply N. rewrite E.
      apply in_or_app. right. apply in_or_app. left. exact Hi'.
    + apply NoDup_cons_iff in N as [_ N].
      apply in_app_or in Hin as [Hin|Hin];
        [apply in_app_or in Hin as [Hin|Hin]|].
      * exact (NoDup_app_disjoint _ _ i N Hin
                 (in_or_app _ _ _ (or_introl Hi'))).
      * apply NoDup_app_remove_l in N.
        exact (NoDup_app_disjoint _ _ i N Hi' Hin).
      * rewrite Hi in Hin. apply in_seq in Hin.
        assert (i < next_id st); [|lia].
        apply B. apply in_or_app. right. rewrite ids_children, E1.
        right. apply in_flat_map. exists d. split; [|exact Hi'].
        apply in_or_app. right. left. reflexivity.
  - intros i Hi' Hin. rewrite Hi in Hi'. apply in_seq in Hi'.
    assert (i < next_id st); [|lia].
    apply B. apply in_or_app. right. exact Hin.
Qed.

Lemma C4_replacement_witness :
  let st := loaded (project [circuit "A" [leaf "p2" []]])
                   (project [circuit "B" []; circuit "A" [leaf "p1" []]]) in
  exists a d,
    wf st /\ unique_names (dst_root st)
    /\ first_circuit "A" (src_root st) = Some a
    /\ In d (children (dst_root st)) /\ is_circuit_named "A" d = true
    /\ exists st' a',
      copy_to_dst st "A" None = (Ok tt, st')
      /\ get_dst_circuit st' "A" = Ok (Some a')
      /\ content a' = content a
      /\ filter (is_circuit_named "A") (children (dst_root st')) = [a']
      /\ (forall i, In i (ids d) -> ~ In i (ids (dst_root st')))
      /\ (forall i, In i (ids a') -> ~ In i (ids (dst_root st))).
Proof.
  cbv zeta. eexists. eexists.
  assert (W : wf (loaded (project [circuit "A" [leaf "p2" []]])
                   (project [circuit "B" []; circuit "A" [leaf "p1" []]])))
    by (apply wfb_wf; reflexivity).
  assert (U : unique_names (dst_root
                (loaded (project [circuit "A" [leaf "p2" []]])
                   (project [circuit "B" []; circuit "A" [leaf "p1" []]]))))
    by (apply nodup_strb_NoDup; reflexivity).
  split; [exact W|]. split; [exact U|].
  split; [reflexivity|].
  split; [right; left; reflexivity|]. split; [reflexivity|].
  apply (C4_replacement _ _ _ W U eq_refl
           (or_intror (or_introl eq_refl)) eq_refl).
Defined.

(** ** Renaming *)





(** ** Repeating a transfer *)

Lemma remove_named_app_last name l a :
  (forall x, In x l -> is_circuit_named name x = false) ->
  is_circuit_named name a = true ->
  remove_named name (l ++ [a]) = l.
Proof.
  induction l as [|h l IH]; cbn; intros N P.
  - rewrite P. reflexivity.
  - rewrite (N h (or_introl eq_refl)). rewrite IH; auto.
Qed.

Lemma content_children e :
  content e = mkXml (tag e) (attrib e) (text e) (tail e)
                    (map content (children e)).
Proof. destruct e. reflexivity. Qed.

(** For a name without an apostrophe the transfer is repeatable: the
    second call replaces the clone of the first by an equal clone. *)
Lemma copy_to_dst_twice st name a :
  quote_free name -> wf st -> unique_names (dst_root st) ->
  first_circuit name (src_root st) = Some a ->
  exists st1 st2,
    copy_to_dst st name None = (Ok tt, st1)
    /\ copy_to_dst st1 name None = (Ok tt, st2)
    /\ content (dst_root st2) = content (dst_root st1).
Proof.
  intros Q W U F.
  pose proof (copy_to_dst_ok st name None a Q Q W F) as H1.
  cbn [final_name renamed] in H1.
  pose proof (copy_to_dst_wf st name None W) as [W1 _]. rewrite H1 in W1.
  cbn [snd] in W1.
  eexists. eexists. split; [exact H1|].
  pose proof (copy_to_dst_ok _ name None a Q Q W1 F) as H2.
  cbn [final_name renamed src_root dst_root next_id] in H2.
  split; [exact H2|]. cbn [dst_root].
  set (a1 := fst (deepcopy a (next_id st))).
  set (a2 := fst (deepcopy a _)).
  assert (N1 : is_circuit_named name a1 = true).
  { unfold a1. rewrite (content_named _ a name (deepcopy_content a _)).
    exact (find_named _ _ _ F). }
  destruct (dst_root st) as [i t at' x y cs]. cbn [replaced content].
  rewrite (remove_named_app_last name _ a1
             (remove_named_none_left name cs U) N1).
  rewrite !map_app. cbn [map]. unfold a1, a2.
  rewrite !deepcopy_content. reflexivity.
Qed.

(** C5 at a name with apostrophes: the path that [get_src_circuit]
    builds from it reads [./circuit[@name='A']/w[@k='v']], so the
    locator returns the element [w] inside circuit "A" instead of
    the circuit of that name; the destination locator finds nothing to
    replace, and each call appends one more copy. *)
Lemma C5_transfer_twice_differs :
  let name := "A']/w[@k='v" in
  let st := loaded (project [circuit "A" [leaf "w" [("k", "v")]];
                             circuit name []])
                   (project []) in
  unique_names (src_root st) /\ unique_names (dst_root st)
  /\ (exists c, In c (children (src_root st))
                /\ is_circuit_named name c = true)
  /\ exists st1 st2,
      copy_to_dst st name None = (Ok tt, st1)
      /\ copy_to_dst st1 name None = (Ok tt, st2)
      /\ content (dst_root st1) = project [leaf "w" [("k", "v")]]
      /\ content (dst_root st2)
         = project [leaf "w" [("k", "v")]; leaf "w" [("k", "v")]].
Proof.
  cbv zeta. split; [apply nodup_strb_NoDup; reflexivity|].
  split; [apply nodup_strb_NoDup; reflexivity|].
  split; [eexists; split; [right; left; reflexivity | reflexivity]|].
  eexists. eexists.
  split; [vm_compute; reflexivity|].
  split; [vm_compute; reflexivity|].
  split; reflexivity.
Qed.

(** ** The locator on names with an apostrophe *)

(** C7 at names with an apostrophe.  The source has a circuit named
    [a'b]; the path built for that name does not parse, and both
    locators raise [SyntaxError("invalid predicate")] instead of
    returning the circuit or [None].  For the name [A'][@name='A] the
    path parses as two predicates, and the locator returns the circuit
    "A", whose name is not the requested string. *)
Lemma C7_locator_raises_on_apostrophe :
  let st := loaded (project [circuit "a'b" []; circuit "A" []])
                   (project [circuit "a'b" []]) in
  (exists c, In c (children (src_root st))
             /\ is_circuit_named "a'b" c = true)
  /\ get_src_circuit st "a'b" = Raise (SyntaxError InvalidPredicate)
  /\ get_dst_circuit st "a'b" = Raise (SyntaxError InvalidPredicate)
  /\ (exists c, get_src_circuit st "A'][@name='A" = Ok (Some c)
                /\ get c "name" = Some "A").
Proof.
  cbv zeta. split; [eexists; split; [left; reflexivity | reflexivity]|].
  split; [reflexivity|]. split; [reflexivity|].
  eexists. split; reflexivity.
Qed.

(** On names without an apostrophe both locators behave as C7 says:
    they do not raise, they return the first top-level circuit whose
    attribute [name] is the name character for character, or [None]. *)
Lemma locators_on_plain_names st name :
  quote_free name ->
  get_src_circuit st name = Ok (first_circuit name (src_root st))
  /\ get_dst_circuit st name = Ok (first_circuit name (dst_root st)).
Proof.
  intros Q. split; apply find_circuit_path, Q.
Qed.

(** ** The batch loop *)

Lemma copy_to_dst_src st name new_name :
  src_root (snd (copy_to_dst st name new_name)) = src_root st.
Proof.
  unfold copy_to_dst.
  destruct (get_src_circuit st name) as [[a|]|e]; [|reflexivity|reflexivity].
  destruct (deepcopy a (next_id st)) as [clone n].
  destruct new_name as [nn|];
    (destruct (get_dst_circuit _ _) as [[d|]|e]; [| reflexivity | reflexivity];
     destruct (remove _ d); reflexivity).
Qed.

Lemma copy_all_src names : forall st,
  src_root (snd (copy_all st names)) = src_root st.
Proof.
  induction names as [|n rest IH]; intros st; [reflexivity|].
  cbn [copy_all]. pose proof (copy_to_dst_src st n None) as H.
  destruct (copy_to_dst st n None) as [[[]|e] st1]; cbn [snd] in *.
  - rewrite IH. exact H.
  - exact H.
Qed.

Lemma copy_all_app before : forall st st1 rest,
  copy_all st before = (Ok tt, st1) ->
  copy_all st (before ++ rest) = copy_all st1 rest.
Proof.
  induction before as [|n l IH]; intros st st1 rest H.
  - cbn in H. injection H as <-. reflexivity.
  - cbn [copy_all app] in *.
    destruct (copy_to_dst st n None) as [[[]|e] st2]; [|discriminate].
    apply IH, H.
Qed.

(** C8: in a batch, when the names before [name] were all transferred
    (leaving the object in state [st1]) and [name] does not resolve in
    the source, the loop stops there: the outcome is the not-found
    error that quotes [name], and the state is [st1], with the effect
    of the names before and of none after. *)
Theorem C8_batch_stops_at_first_missing :
  forall st before name after st1,
    copy_all st before = (Ok tt, st1) ->
    get_src_circuit st name = Ok None ->
    copy_all st (before ++ name :: after)
    = (Raise (ValueError ("Circuit '" ++ name ++ "' not found in source")),
       st1).
Proof.
  intros st before name after st1 H N.
  rewrite (copy_all_app _ _ _ _ H). cbn [copy_all].
  assert (N1 : get_src_circuit st1 name = Ok None).
  { unfold get_src_circuit in *.
    pose proof (copy_all_src before st) as E. rewrite H in E.
    cbn [snd] in E. rewrite E. exact N. }
  rewrite (copy_to_dst_not_found st1 name None N1). reflexivity.
Qed.

Lemma C8_batch_stops_at_first_missing_witness :
  let st := loaded (project [circuit "A" [leaf "wire" []]; circuit "B" []])
                   (project [circuit "C" []]) in
  copy_all st ["A"] = (Ok tt, snd (copy_all st ["A"]))
  /\ get_src_circuit st "Zzz" = Ok None
  /\ copy_all st ["A"; "Zzz"; "B"]
     = (Raise (ValueError "Circuit 'Zzz' not found in source"),
        snd (copy_all st ["A"]))
  /\ content (dst_root (snd (copy_all st ["A"; "Zzz"; "B"])))
     = project [circuit "C" []; circuit "A" [leaf "wire" []]].
Proof.
  cbv zeta. split; [reflexivity|]. split; [reflexivity|].
  split; [|reflexivity].
  apply (C8_batch_stops_at_first_missing
           (loaded (project [circuit "A" [leaf "wire" []]; circuit "B" []])
                   (project [circuit "C" []]))
           ["A"] "Zzz" ["B"]); reflexivity.
Defined.

(** ** The source and the clone *)

Lemma children_append root c :
  children (ElementTree.append root c) = children root ++ [c].
Proof. destruct root. reflexivity. Qed.

Lemma content_renamed nn e e' :
  content e = content e' -> content (renamed nn e) = content (renamed nn e').
Proof. destruct nn; [apply content_set | auto]. Qed.

(** A successful transfer, whatever the names: the element the source
    locator returned is cloned, and the clone is the last child of the
    destination. *)
Lemma copy_to_dst_success st name new_name st' :
  copy_to_dst st name new_name = (Ok tt, st') ->
  exists e root,
    get_src_circuit st name = Ok (Some e)
    /\ dst_root st'
       = ElementTree.append root
           (renamed new_name (fst (deepcopy e (next_id st)))).
Proof.
  unfold copy_to_dst.
  destruct (get_src_circuit st name) as [[e|]|x]; [|discriminate|discriminate].
  intros H. exists e. revert H.
  destruct (deepcopy e (next_id st)) as [clone n]. cbn [fst].
  destruct new_name as [nn|]; cbn [renamed];
    destruct (get_dst_circuit _ _) as [[d|]|x]; try discriminate;
    try (destruct (remove _ d) as [root|x]; try discriminate).
  all: intros [= <-]; eexists; split; reflexivity.
Qed.

(** C9: a call of [copy_to_dst], whatever its outcome, leaves the
    source document as it was, and afterwards the two documents share
    no object: a change through a reference to any object of the
    destination (the clone included) is not seen in the source, and a
    change through a reference to any object of the source is not seen
    in the destination.  After a successful call the last child of the
    destination is the clone: it holds what the located source element
    holds (under the new name, if one is given) in objects that are
    not in the source. *)
Theorem C9_source_independent :
  forall st name new_name,
    wf st ->
    let r := copy_to_dst st name new_name in
    src_root (snd r) = src_root st
    /\ (forall i g, In i (ids (dst_root (snd r))) ->
                    mutate i g (src_root (snd r)) = src_root (snd r))
    /\ (forall i g, In i (ids (src_root (snd r))) ->
                    mutate i g (dst_root (snd r)) = dst_root (snd r))
    /\ (fst r = Ok tt ->
        exists e clone rest,
          get_src_circuit st name = Ok (Some e)
          /\ children (dst_root (snd r)) = rest ++ [clone]
          /\ content clone = content (renamed new_name e)
          /\ (forall i, In i (ids clone) -> ~ In i (ids (src_root st)))
          /\ (forall i g, In i (ids clone) ->
                          mutate i g (src_root (snd r)) = src_root (snd r))).
Proof.
  intros st name new_name W r.
  destruct (copy_to_dst_wf st name new_name W) as [[N B] S]. fold r in N, B, S.
  split; [exact S|].
  assert (D : forall i, In i (ids (dst_root (snd r))) ->
                        ~ In i (ids (src_root (snd r)))).
  { intros i Hd Hs. exact (NoDup_app_disjoint _ _ i N Hs Hd). }
  split; [intros i g Hi; apply mutate_absent, D, Hi|].
  split.
  { intros i g Hi. apply mutate_absent. intros Hd. exact (D i Hd Hi). }
  intros Hok. destruct r as [[[]|x] st'] eqn:Er; [|discriminate].
  cbn [fst snd] in *.
  destruct (copy_to_dst_success _ _ _ _ Er) as (e & root & He & Hd).
  exists e, (renamed new_name (fst (deepcopy e (next_id st)))),
    (children root).
  split; [exact He|]. rewrite Hd, children_append. split; [reflexivity|].
  split; [apply content_renamed, deepcopy_content|].
  assert (C : forall i,
    In i (ids (renamed new_name (fst (deepcopy e (next_id st))))) ->
    In i (ids (dst_root st'))).
  { intros i Hi. rewrite Hd, ids_append. apply in_or_app. right. exact Hi. }
  split.
  - intros i Hi. rewrite <- S. apply D, C, Hi.
  - intros i g Hi. apply mutate_absent, D, C, Hi.
Qed.

Lemma C9_source_independent_witness :
  let st := loaded (project [circuit "A" [leaf "wire" []]])
                   (project [circuit "A" [leaf "old" []]]) in
  wf st
  /\ src_root (snd (copy_to_dst st "A" None)) = src_root st
  /\ mutate 6 (fun e => set e "name" "changed")
            (dst_root (snd (copy_to_dst st "A" None)))
     <> dst_root (snd (copy_to_dst st "A" None))
  /\ mutate 6 (fun e => set e "name" "changed")
            (src_root (snd (copy_to_dst st "A" None)))
     = src_root (snd (copy_to_dst st "A" None)).
Proof.
  cbv zeta.
  assert (W : wf (loaded (project [circuit "A" [leaf "wire" []]])
                         (project [circuit "A" [leaf "old" []]])))
    by (apply wfb_wf; reflexivity).
  split; [exact W|].
  pose proof (C9_source_independent _ "A" None W) as (S & M & _).
  cbv zeta in S, M.
  split; [exact S|]. split; [vm_compute; intros H; discriminate H|].
  apply M. vm_compute. right. left. reflexivity.
Defined.

(** ** Saving *)

(** C10: [save] returns only for a string whose cleaned path exists
    and is a regular file (and then writes the destination document
    there); [None] raises the [TypeError] of [_sanitize_path]; a string
    whose cleaned path does not exist raises [FileNotFoundError]; one
    that exists and is no file raises [ValueError("Path is not a
    file: ...")]; and the [ValueError] of the guard [path is None] is
    never raised. *)
Theorem C10_save_needs_existing_file :
  forall sys st out_path,
    (forall w, save sys st out_path = Ok w ->
       exists p, out_path = PyStr p
                 /\ exists_ sys (cleaned sys p) = true
                 /\ isfile sys (cleaned sys p) = true
                 /\ w = mkWritten (cleaned sys p) (content (dst_root st)))
    /\ (out_path = PyNone ->
        save sys st out_path
        = Raise (TypeError "Path must be a string. Seriously."))
    /\ (forall p, out_path = PyStr p ->
        exists_ sys (cleaned sys p) = false ->
        save sys st out_path
        = Raise (FileNotFoundError
                   ("Path does not exist: " ++ cleaned sys p)))
    /\ (forall p, out_path = PyStr p ->
        exists_ sys (cleaned sys p) = true ->
        isfile sys (cleaned sys p) = false ->
        save sys st out_path
        = Raise (ValueError ("Path is not a file: " ++ cleaned sys p)))
    /\ save sys st out_path
       <> Raise (ValueError "Must specify output path for destination file").
Proof.
  intros sys st out_path. unfold save, _sanitize_path.
  split; [|split; [|split; [|split]]].
  - intros w. destruct out_path as [|p|z]; try discriminate.
    fold (cleaned sys p).
    destruct (exists_ sys (cleaned sys p)) eqn:E; [|discriminate].
    destruct (isfile sys (cleaned sys p)) eqn:F; [|discriminate].
    cbn. destruct (write_error sys (cleaned sys p)); [discriminate|].
    intros H. injection H as <-. exists p. repeat split; assumption.
  - intros ->. reflexivity.
  - intros p -> E. fold (cleaned sys p). rewrite E. reflexivity.
  - intros p -> E F. fold (cleaned sys p). rewrite E, F. reflexivity.
  - destruct out_path as [|p|z]; try discriminate.
    fold (cleaned sys p).
    destruct (exists_ sys (cleaned sys p)); [|discriminate].
    destruct (isfile sys (cleaned sys p)); [|discriminate].
    cbn. destruct (write_error sys (cleaned sys p)); discriminate.
Qed.

Lemma C10_save_needs_existing_file_witness :
  let sys := mkOs (fun p => "/home/user/" ++ p)%string
                  (fun p => String.eqb p "/home/user/out.circ"
                            || String.eqb p "/home/user/dir")
                  (fun p => String.eqb p "/home/user/out.circ")
                  (fun _ => None) in
  let st := loaded (project [circuit "A" []]) (project [circuit "B" []]) in
  save sys st (PyStr " 'out.circ' ")
  = Ok (mkWritten "/home/user/out.circ" (project [circuit "B" []]))
  /\ save sys st PyNone
     = Raise (TypeError "Path must be a string. Seriously.")
  /\ save sys st (PyStr "new.circ")
     = Raise (FileNotFoundError "Path does not exist: /home/user/new.circ")
  /\ save sys st (PyStr "dir")
     = Raise (ValueError "Path is not a file: /home/user/dir").
Proof.
  cbv zeta.
  pose proof (fun out_path =>
    C10_save_needs_existing_file
      (mkOs (fun p => "/home/user/" ++ p)%string
            (fun p => String.eqb p "/home/user/out.circ"
                      || String.eqb p "/home/user/dir")
            (fun p => String.eqb p "/home/user/out.circ")
            (fun _ => None))
      (loaded (project [circuit "A" []]) (project [circuit "B" []]))
      out_path) as H.
  split; [reflexivity|]. split.
  - destruct (H PyNone) as (_ & H2 & _). apply H2. reflexivity.
  - split.
    + destruct (H (PyStr "new.circ")) as (_ & _ & H3 & _).
      apply (H3 "new.circ"); reflexivity.
    + destruct (H (PyStr "dir")) as (_ & _ & _ & H4 & _).
      apply (H4 "dir"); reflexivity.
Defined.

(** * Further properties of the code *)

(** ** The locators *)

Lemma is_circuit_named_iff name c :
  is_circuit_named name c = true <-> named_circuit name c.
Proof.
  unfold is_circuit_named, named_circuit.
  rewrite andb_true_iff, String.eqb_eq.
  destruct (get c "name") as [v|].
  - rewrite String.eqb_eq. split; intros [H1 H2]; split; congruence.
  - split; intros [H1 H2]; discriminate.
Qed.

Lemma find_locates name root :
  locates name root (first_circuit name root).
Proof.
  unfold first_circuit, locates.
  induction (children root) as [|c cs IH]; cbn [List.find].
  - intros x [].
  - destruct (is_circuit_named name c) eqn:E.
    + exists [], cs. split; [reflexivity|].
      split; [apply is_circuit_named_iff, E | intros x []].
    + assert (N : ~ named_circuit name c).
      { rewrite <- is_circuit_named_iff, E. discriminate. }
      destruct (List.find (is_circuit_named name) cs) as [d|].
      * destruct IH as (l1 & l2 & -> & Hd & Hl).
        exists (c :: l1), l2. split; [reflexivity|]. split; [exact Hd|].
        intros x [<-|Hx]; auto.
      * intros x [<-|Hx]; auto.
Qed.

(** For a name without an apostrophe neither locator raises, and each
    returns the first top-level [circuit] of its document whose [name]
    attribute is the name, character for character, or [None] when the
    document has no such circuit. *)
Theorem locators_first_exact_match :
  forall st name,
    quote_free name ->
    (exists r, get_src_circuit st name = Ok r
               /\ locates name (src_root st) r)
    /\ (exists r, get_dst_circuit st name = Ok r
                  /\ locates name (dst_root st) r).
Proof.
  intros st name Q. split; eexists; (split;
    [apply (find_circuit_path _ name Q) | apply find_locates]).
Qed.

Lemma locators_first_exact_match_witness :
  let st := loaded (project [leaf "main" [("name", "a")];
                             circuit "A" []; circuit "a" [leaf "one" []];
                             circuit "a" [leaf "two" []]])
                   (project [circuit "A" []]) in
  quote_free "a"
  /\ (exists r, get_src_circuit st "a" = Ok r
                /\ locates "a" (src_root st) r)
  /\ (exists r, get_dst_circuit st "a" = Ok r
                /\ locates "a" (dst_root st) r).
Proof.
  cbv zeta. split; [reflexivity|].
  apply locators_first_exact_match. reflexivity.
Defined.

(** The not-found error: for a name without an apostrophe that no
    top-level [circuit] of the source has, [copy_to_dst] raises
    [ValueError] with the message that quotes the name, whatever the
    new name is, and leaves both documents and the object as they
    were. *)
Theorem not_found_on_plain_names :
  forall st name new_name,
    quote_free name ->
    (forall c, In c (children (src_root st)) -> ~ named_circuit name c) ->
    copy_to_dst st name new_name
    = (Raise (ValueError ("Circuit '" ++ name ++ "' not found in source")),
       st).
Proof.
  intros st name new_name Q H. apply copy_to_dst_not_found.
  apply (get_src_circuit_not_found st name Q). intros c Hc.
  destruct (is_circuit_named name c) eqn:E; [|reflexivity].
  apply is_circuit_named_iff in E. destruct (H c Hc E).
Qed.

Lemma not_found_on_plain_names_witness :
  let st := loaded (project [leaf "main" [("name", "adder")];
                             circuit "Adder" [leaf "wire" []]])
                   (project [circuit "adder" []]) in
  quote_free "adder"
  /\ copy_to_dst st "adder" (Some "x'y")
     = (Raise (ValueError "Circuit 'adder' not found in source"), st).
Proof.
  cbv zeta. split; [reflexivity|].
  apply (not_found_on_plain_names _ "adder" (Some "x'y")); [reflexivity|].
  intros c [<-|[<-|[]]] [T N]; vm_compute in T, N; discriminate.
Defined.

Lemma iter_self e : In e (iter e).
Proof. destruct e. left. reflexivity. Qed.

Lemma iter_trans root :
  forall e, In e (iter root) -> incl (iter e) (iter root).
Proof.
  induction root as [i t a x y cs IH] using Element_induction.
  intros e He. cbn [iter] in He. destruct He as [<-|He]; [apply incl_refl|].
  apply in_flat_map in He as (c & Hc & He).
  rewrite Forall_forall in IH. intros z Hz.
  cbn [iter]. right. apply in_flat_map. exists c. split; [exact Hc|].
  exact (IH c Hc e He z Hz).
Qed.

Lemma child_in_iter root e c :
  In e (iter root) -> In c (children e) -> In c (iter root).
Proof.
  intros He Hc. apply (iter_trans root e He).
  destruct e as [i t a x y cs]. cbn [children] in Hc. cbn [iter]. right.
  apply in_flat_map. exists c. split; [exact Hc | apply iter_self].
Qed.

Lemma parent_of_in_iter root e p :
  ElementPath.parent_of root e = Some p -> In p (iter root).
Proof.
  unfold ElementPath.parent_of.
  destruct (List.find _ _) as [[k q]|] eqn:F; [|discriminate].
  intros H. injection H as <-. apply find_some in F as [F _].
  apply in_rev in F. unfold ElementPath.parent_pairs in F.
  apply in_flat_map in F as (q' & Hq & F).
  apply in_map_iff in F as (c & E & _). injection E as _ <-. exact Hq.
Qed.

Lemma select_parents_in_iter root result : forall seen,
  Forall (fun e => In e (iter root))
         (ElementPath.select_parents root seen result).
Proof.
  induction result as [|e l IH]; intros seen; cbn; [constructor|].
  destruct (ElementPath.parent_of root e) as [p|] eqn:P; [|apply IH].
  destruct (existsb _ seen); [apply IH|].
  constructor; [exact (parent_of_in_iter _ _ _ P) | apply IH].
Qed.

Lemma Forall_filter {A} (P : A -> Prop) f (l : list A) :
  Forall P l -> Forall P (filter f l).
Proof.
  intros H. apply Forall_forall. intros x Hx. apply filter_In in Hx as [Hx _].
  rewrite Forall_forall in H. auto.
Qed.

Lemma Forall_flat_map {A B} (P : A -> Prop) (Q : B -> Prop) (f : A -> list B)
  (l : list A) :
  Forall P l -> (forall a, P a -> Forall Q (f a)) -> Forall Q (flat_map f l).
Proof.
  intros H F. apply Forall_forall. intros x Hx.
  apply in_flat_map in Hx as (a & Ha & Hx). rewrite Forall_forall in H.
  specialize (F a (H a Ha)). rewrite Forall_forall in F. auto.
Qed.

Lemma children_in_iter root e :
  In e (iter root) -> Forall (fun c => In c (iter root)) (children e).
Proof.
  intros He. apply Forall_forall. intros c Hc.
  exact (child_in_iter root e c He Hc).
Qed.

Lemma select_in_iter root sel result :
  Forall (fun e => In e (iter root)) result ->
  Forall (fun e => In e (iter root)) (ElementPath.select root sel result).
Proof.
  intros H.
  destruct sel; cbn [ElementPath.select];
    try (apply Forall_filter; exact H);
    try (apply (Forall_flat_map _ _ _ _ H); intros e He;
         try (cbn [ElementPath.select_child]; apply Forall_filter);
         try (apply children_in_iter; exact He);
         apply Forall_forall; intros d Hd; exact (iter_trans root e He d Hd)).
  - exact H.
  - apply select_parents_in_iter.
Qed.

Lemma run_selectors_in_iter root sels : forall result r,
  Forall (fun e => In e (iter root)) result ->
  ElementPath.run_selectors root sels result = Ok r ->
  Forall (fun e => In e (iter root)) r.
Proof.
  induction sels as [|[s|] sels IH]; cbn; intros result r H E.
  - injection E as <-. exact H.
  - destruct (ElementPath.run_selectors root sels _) as [r'|x] eqn:R;
      [|discriminate].
    injection E as <-. exact (IH _ _ (select_in_iter root s result H) R).
  - discriminate.
Qed.

Lemma find_in_iter root path e :
  ElementPath.find root path = Ok (Some e) -> In e (iter root).
Proof.
  unfold ElementPath.find, ElementPath.iterfind.
  destruct (ElementPath.compile path) as [[sels|]|x]; try discriminate.
  destruct (ElementPath.run_selectors root sels [root]) as [r|x] eqn:R;
    [|discriminate].
  intros H. injection H as H.
  assert (F : Forall (fun e => In e (iter root)) [root])
    by (constructor; [apply iter_self | constructor]).
  pose proof (run_selectors_in_iter _ _ _ _ F R) as Fr.
  destruct r as [|e' r]; [discriminate|]. injection H as <-.
  apply Forall_inv in Fr. exact Fr.
Qed.

(** Whatever the name, apostrophes included, what a locator returns is
    an element of its own document: the root or one of its
    descendants. *)
Theorem locators_stay_in_document :
  forall st name e,
    (get_src_circuit st name = Ok (Some e) -> In e (iter (src_root st)))
    /\ (get_dst_circuit st name = Ok (Some e) -> In e (iter (dst_root st))).
Proof.
  intros st name e. split; apply find_in_iter.
Qed.

Lemma locators_stay_in_document_witness :
  let st := loaded (project [circuit "A" [leaf "w" [("k", "v")]]])
                   (project [circuit "B" []]) in
  exists e, get_src_circuit st "A']/w[@k='v" = Ok (Some e)
            /\ content e = leaf "w" [("k", "v")]
            /\ In e (iter (src_root st)).
Proof.
  cbv zeta. eexists. split; [reflexivity|]. split; [reflexivity|].
  apply (proj1 (locators_stay_in_document _ "A']/w[@k='v" _)). reflexivity.
Defined.

(** ** One transfer, whatever the names *)

(** A call of [copy_to_dst] that raises, whatever the exception and
    whatever the names, has changed neither document: the destination
    is touched only by the last two statements, after everything that
    can fail. *)
Theorem copy_to_dst_failure_changes_nothing :
  forall st name new_name e st',
    copy_to_dst st name new_name = (Raise e, st') ->
    src_root st' = src_root st /\ dst_root st' = dst_root st.
Proof.
  intros st name new_name e st'. unfold copy_to_dst.
  destruct (get_src_circuit st name) as [[a|]|x];
    try (intros [= _ <-]; split; reflexivity).
  destruct (deepcopy a (next_id st)) as [clone n].
  destruct new_name as [nn|];
    destruct (get_dst_circuit _ _) as [[d|]|x];
    try (destruct (remove _ d) as [root|y]);
    try discriminate; intros [= _ <-]; split; reflexivity.
Qed.

Lemma copy_to_dst_failure_changes_nothing_witness :
  let st := loaded (project [circuit "A" [leaf "w" [("k", "v")]]])
                   (project [circuit "A" [leaf "w" [("k", "v")]]]) in
  copy_to_dst st "A']/w[@k='v" None
  = (Raise (ValueError "list.remove(x): x not in list"),
     snd (copy_to_dst st "A']/w[@k='v" None))
  /\ src_root (snd (copy_to_dst st "A']/w[@k='v" None)) = src_root st
  /\ dst_root (snd (copy_to_dst st "A']/w[@k='v" None)) = dst_root st.
Proof.
  cbv zeta. split; [reflexivity|].
  apply (copy_to_dst_failure_changes_nothing _ "A']/w[@k='v" None
           (ValueError "list.remove(x): x not in list")).
  reflexivity.
Defined.




Lemma same_node_trans a b c : same_node a b -> same_node b c -> same_node a c.
Proof.
  unfold same_node. intros (A1 & A2 & A3 & A4 & A5) (B1 & B2 & B3 & B4 & B5).
  repeat split; congruence.
Qed.

Lemma same_node_refl a : same_node a a.
Proof. repeat split. Qed.



(** ** Transfers of names without an apostrophe *)

Lemma clone_named name new_name a k :
  is_circuit_named name a = true ->
  is_circuit_named (final_name name new_name)
    (renamed new_name (fst (deepcopy a k))) = true.
Proof.
  intros H. destruct new_name as [nn|]; cbn [final_name renamed].
  - unfold is_circuit_named in *. rewrite tag_set, get_set, String.eqb_refl.
    rewrite (content_tag _ a (deepcopy_content a k)).
    apply andb_prop in H as [-> _]. reflexivity.
  - rewrite (content_named _ a name (deepcopy_content a k)). exact H.
Qed.

Lemma copy_to_dst_plain st name new_name st' :
  wf st -> quote_free name -> quote_free (final_name name new_name) ->
  copy_to_dst st name new_name = (Ok tt, st') ->
  exists a,
    first_circuit name (src_root st) = Some a
    /\ st' = mkState (src_root st)
               (replaced (dst_root st) (final_name name new_name)
                         (renamed new_name (fst (deepcopy a (next_id st)))))
               (next_id st + List.length (ids a)).
Proof.
  intros W Q Q2 H.
  destruct (copy_to_dst_shape _ _ _ _ W Q2 H) as (a & G & E).
  exists a. split; [|exact E]. unfold get_src_circuit in G.
  rewrite (find_circuit_path _ _ Q) in G. congruence.
Qed.



(** Repeating a transfer: with unique top-level circuit names in the
    destination and no apostrophe in either name, a transfer that
    succeeded succeeds again with the same arguments, and the
    destination document after the second call holds what it held after
    the first (the clone is replaced by an equal clone). *)
Theorem transfer_twice_same_document :
  forall st name new_name st1,
    wf st -> unique_names (dst_root st) ->
    quote_free name -> quote_free (final_name name new_name) ->
    copy_to_dst st name new_name = (Ok tt, st1) ->
    exists st2,
      copy_to_dst st1 name new_name = (Ok tt, st2)
      /\ content (dst_root st2) = content (dst_root st1)
      /\ List.length (children (dst_root st2))
         = List.length (children (dst_root st1)).
Proof.
  intros st name new_name st1 W U Q Q2 H.
  pose proof (copy_to_dst_wf st name new_name W) as [W1 _].
  rewrite H in W1. cbn [snd] in W1.
  destruct (copy_to_dst_plain _ _ _ _ W Q Q2 H) as (a & F & E).
  assert (F1 : first_circuit name (src_root st1) = Some a)
    by (rewrite E; exact F).
  pose proof (copy_to_dst_ok st1 name new_name a Q Q2 W1 F1) as H2.
  eexists. split; [exact H2|]. cbn [dst_root]. rewrite E. cbn [dst_root].
  set (f := final_name name new_name).
  set (c1 := renamed new_name (fst (deepcopy a (next_id st)))).
  set (c2 := renamed new_name (fst (deepcopy a _))).
  pose proof (clone_named name new_name a (next_id st) (find_named _ _ _ F))
    as N. fold f c1 in N.
  destruct (dst_root st) as [i t at' x y cs]. cbn [replaced content children].
  rewrite (remove_named_app_last f _ c1 (remove_named_none_left f cs U) N).
  rewrite !map_app, !length_app. cbn [map List.length]. unfold c1, c2.
  rewrite (content_renamed new_name _ a (deepcopy_content a _)).
  rewrite (content_renamed new_name _ a (deepcopy_content a _)).
  split; reflexivity.
Qed.

Lemma transfer_twice_same_document_witness :
  let st := loaded (project [circuit "adder" [leaf "wire" []]])
                   (project [circuit "main" []; circuit "sum" []]) in
  exists st1 st2,
    wf st /\ unique_names (dst_root st)
    /\ copy_to_dst st "adder" (Some "sum") = (Ok tt, st1)
    /\ copy_to_dst st1 "adder" (Some "sum") = (Ok tt, st2)
    /\ content (dst_root st2) = content (dst_root st1)
    /\ List.length (children (dst_root st2))
       = List.length (children (dst_root st1)).
Proof.
  cbv zeta.
  assert (W : wf (loaded (project [circuit "adder" [leaf "wire" []]])
                         (project [circuit "main" []; circuit "sum" []])))
    by (apply wfb_wf; reflexivity).
  assert (U : unique_names (dst_root
                (loaded (project [circuit "adder" [leaf "wire" []]])
                        (project [circuit "main" []; circuit "sum" []]))))
    by (apply nodup_strb_NoDup; reflexivity).
  destruct (transfer_twice_same_document _ "adder" (Some "sum") _ W U
              eq_refl eq_refl eq_refl) as (st2 & P1 & P2 & P3).
  eexists. exists st2.
  split; [exact W|]. split; [exact U|]. split; [reflexivity|].
  repeat split; assumption.
Defined.

(** ** The batch loop, further *)

(** A batch over two lists of names one after the other is the batch
    over the first list followed, if it succeeded, by the batch over
    the second from the state the first one left; if the first one
    raised, that is the outcome and the second list is not touched. *)
Theorem copy_all_concatenation :
  forall st first second,
    copy_all st (first ++ second)
    = match copy_all st first with
      | (Ok _, st1) => copy_all st1 second
      | (Raise e, st1) => (Raise e, st1)
      end.
Proof.
  intros st first. revert st.
  induction first as [|n l IH]; intros st second; [reflexivity|].
  cbn [copy_all app]. destruct (copy_to_dst st n None) as [[[]|e] st1];
    [apply IH | reflexivity].
Qed.

Lemma names_remove_named_keeps n f cs :
  n <> f ->
  In n (flat_map circuit_name cs) ->
  In n (flat_map circuit_name (remove_named f cs)).
Proof.
  intros D. induction cs as [|c cs IH]; cbn [flat_map remove_named];
    [auto|].
  intros H. apply in_app_or in H.
  destruct (is_circuit_named f c) eqn:E.
  - destruct H as [H|H]; [|exact H]. exfalso.
    apply is_circuit_named_name in E. rewrite E in H.
    destruct H as [H|[]]. congruence.
  - cbn [flat_map]. apply in_or_app. destruct H as [H|H]; auto.
Qed.

Lemma copy_to_dst_names st n st' :
  wf st -> quote_free n ->
  copy_to_dst st n None = (Ok tt, st') ->
  In n (circuit_names (dst_root st'))
  /\ forall m, In m (circuit_names (dst_root st)) ->
               In m (circuit_names (dst_root st')).
Proof.
  intros W Q H.
  destruct (copy_to_dst_plain st n None st' W Q Q H) as (a & F & ->).
  cbn [final_name renamed dst_root]. unfold circuit_names.
  rewrite children_replaced, flat_map_app. cbn [flat_map].
  pose proof (clone_named n None a (next_id st) (find_named _ _ _ F)) as N.
  cbn [final_name renamed] in N. apply is_circuit_named_name in N.
  rewrite N. split.
  - apply in_or_app. right. left. reflexivity.
  - intros m Hm. apply in_or_app.
    destruct (String.eqb_spec m n) as [->|D].
    + right. left. reflexivity.
    + left. apply names_remove_named_keeps; assumption.
Qed.

Lemma in_circuit_names_find n root :
  In n (circuit_names root) ->
  exists c, first_circuit n root = Some c /\ named_circuit n c.
Proof.
  unfold circuit_names, first_circuit. intros H.
  apply in_flat_map in H as (c & Hc & Hn).
  destruct (List.find (is_circuit_named n) (children root)) as [d|] eqn:F.
  - exists d. split; [reflexivity|].
    apply is_circuit_named_iff, (find_named _ _ _ F).
  - exfalso. pose proof (find_none _ _ F c Hc) as E.
    destruct (circuit_name_cases c) as [C|[v C]]; rewrite C in Hn;
      [destruct Hn|].
    destruct Hn as [->|[]]. apply is_circuit_named_name in C. congruence.
Qed.

Lemma copy_all_names names : forall st st',
  wf st -> Forall quote_free names ->
  copy_all st names = (Ok tt, st') ->
  forall m, In m names \/ In m (circuit_names (dst_root st)) ->
            In m (circuit_names (dst_root st')).
Proof.
  induction names as [|n rest IH]; intros st st' W Q H m Hm.
  - cbn in H. injection H as <-. destruct Hm as [[]|Hm]. exact Hm.
  - apply copy_all_cons in H as (st1 & H1 & H2).
    apply Forall_cons_iff in Q as [Qn Qr].
    pose proof (copy_to_dst_wf st n None W) as [W1 _].
    rewrite H1 in W1. cbn [snd] in W1.
    destruct (copy_to_dst_names _ _ _ W Qn H1) as [N1 N2].
    apply (IH st1 st' W1 Qr H2). destruct Hm as [[<-|Hm]|Hm]; auto.
Qed.

(** After a successful batch of names without apostrophes the
    destination has a circuit of every name of the batch (the
    destination locator finds one), and of every name it had a circuit
    of before. *)
Theorem batch_circuits_present :
  forall st names st',
    wf st -> Forall quote_free names ->
    copy_all st names = (Ok tt, st') ->
    (forall n, In n names ->
       exists c, get_dst_circuit st' n = Ok (Some c) /\ named_circuit n c)
    /\ (forall m, In m (circuit_names (dst_root st)) ->
                  In m (circuit_names (dst_root st'))).
Proof.
  intros st names st' W Q H. split.
  - intros n Hn. rewrite Forall_forall in Q. pose proof (Q n Hn) as Qn.
    rewrite <- Forall_forall in Q.
    pose proof (copy_all_names names st st' W Q H n (or_introl Hn)) as I.
    destruct (in_circuit_names_find _ _ I) as (c & F & N).
    exists c. split; [|exact N]. unfold get_dst_circuit.
    rewrite (find_circuit_path _ _ Qn), F. reflexivity.
  - intros m Hm. exact (copy_all_names names st st' W Q H m (or_intror Hm)).
Qed.

Lemma batch_circuits_present_witness :
  let st := loaded (project [circuit "A" []; circuit "B" []; circuit "C" []])
                   (project [circuit "B" [leaf "old" []]; circuit "D" []]) in
  wf st /\ Forall quote_free ["B"; "A"; "B"]
  /\ (forall n, In n ["B"; "A"; "B"] ->
        exists c, get_dst_circuit (snd (copy_all st ["B"; "A"; "B"])) n
                  = Ok (Some c) /\ named_circuit n c)
  /\ (forall m, In m (circuit_names (dst_root st)) ->
        In m (circuit_names (dst_root (snd (copy_all st ["B"; "A"; "B"]))))).
Proof.
  cbv zeta.
  assert (W : wf (loaded
                    (project [circuit "A" []; circuit "B" []; circuit "C" []])
                    (project [circuit "B" [leaf "old" []]; circuit "D" []])))
    by (apply wfb_wf; reflexivity).
  assert (Q : Forall quote_free ["B"; "A"; "B"])
    by (repeat constructor).
  split; [exact W|]. split; [exact Q|].
  apply (batch_circuits_present _ ["B"; "A"; "B"] _ W Q). reflexivity.
Defined.

Lemma untargeted_named names f c :
  In f names -> is_circuit_named f c = true -> untargeted names c = false.
Proof.
  intros I N. unfold untargeted. apply negb_false_iff, existsb_exists.
  exists f. auto.
Qed.

Lemma filter_untargeted_remove names f cs :
  In f names ->
  filter (untargeted names) (remove_named f cs)
  = filter (untargeted names) cs.
Proof.
  intros I. induction cs as [|c cs IH]; cbn [remove_named filter];
    [reflexivity|].
  destruct (is_circuit_named f c) eqn:E.
  - rewrite (untargeted_named names f c I E). reflexivity.
  - cbn [filter]. rewrite IH. reflexivity.
Qed.

Lemma same_node_replaced root f c : same_node root (replaced root f c).
Proof. destruct root. repeat split. Qed.

Lemma copy_all_untargeted targets names : forall st st',
  wf st -> Forall quote_free names -> incl names targets ->
  copy_all st names = (Ok tt, st') ->
  filter (untargeted targets) (children (dst_root st'))
  = filter (untargeted targets) (children (dst_root st))
  /\ same_node (dst_root st) (dst_root st')
  /\ src_root st' = src_root st.
Proof.
  induction names as [|n rest IH]; intros st st' W Q I H.
  - cbn in H. injection H as <-.
    split; [reflexivity|]. split; [apply same_node_refl | reflexivity].
  - apply copy_all_cons in H as (st1 & H1 & H2).
    apply Forall_cons_iff in Q as [Qn Qr].
    pose proof (copy_to_dst_wf st n None W) as [W1 _].
    rewrite H1 in W1. cbn [snd] in W1.
    assert (Ir : incl rest targets)
      by (intros z Hz; apply I; right; exact Hz).
    destruct (IH st1 st' W1 Qr Ir H2) as (E1 & E2 & E3).
    destruct (copy_to_dst_plain st n None st1 W Qn Qn H1) as (a & F & E).
    rewrite E in E1, E2, E3. cbn [dst_root src_root final_name renamed] in *.
    rewrite E1, E3. rewrite children_replaced, filter_app in *.
    assert (In n targets) as Hn by (apply I; left; reflexivity).
    rewrite (filter_untargeted_remove targets n _ Hn). cbn [filter].
    pose proof (clone_named n None a (next_id st) (find_named _ _ _ F)) as N.
    cbn [final_name renamed] in N.
    rewrite (untargeted_named targets n _ Hn N), app_nil_r.
    split; [reflexivity|]. split; [|reflexivity].
    exact (same_node_trans _ _ _ (same_node_replaced _ _ _) E2).
Qed.

(** A successful batch of names without apostrophes leaves alone what
    it does not name: the top-level children of the destination that
    are not circuits of one of the names are the same objects in the
    same order as before (library entries, [<main>], other circuits);
    the root keeps its tag, attributes and text; the source document
    is the one before the batch. *)
Theorem batch_keeps_untargeted :
  forall st names st',
    wf st -> Forall quote_free names ->
    copy_all st names = (Ok tt, st') ->
    filter (untargeted names) (children (dst_root st'))
    = filter (untargeted names) (children (dst_root st))
    /\ same_node (dst_root st) (dst_root st')
    /\ src_root st' = src_root st.
Proof.
  intros st names st' W Q H.
  exact (copy_all_untargeted names names st st' W Q (incl_refl _) H).
Qed.

Lemma batch_keeps_untargeted_witness :
  let st := loaded (project [circuit "A" []; circuit "B" []])
                   (project [leaf "lib" [("name", "0")];
                             leaf "main" [("name", "B")];
                             circuit "B" [leaf "old" []];
                             circuit "D" []]) in
  wf st /\ Forall quote_free ["B"; "A"]
  /\ filter (untargeted ["B"; "A"])
            (children (dst_root (snd (copy_all st ["B"; "A"]))))
     = filter (untargeted ["B"; "A"]) (children (dst_root st))
  /\ same_node (dst_root st) (dst_root (snd (copy_all st ["B"; "A"])))
  /\ src_root (snd (copy_all st ["B"; "A"])) = src_root st.
Proof.
  cbv zeta.
  assert (W : wf (loaded (project [circuit "A" []; circuit "B" []])
                   (project [leaf "lib" [("name", "0")];
                             leaf "main" [("name", "B")];
                             circuit "B" [leaf "old" []];
                             circuit "D" []])))
    by (apply wfb_wf; reflexivity).
  assert (Q : Forall quote_free ["B"; "A"]) by (repeat constructor).
  split; [exact W|]. split; [exact Q|].
  apply (batch_keeps_untargeted _ ["B"; "A"] _ W Q). reflexivity.
Defined.

(** ** Constructing the object *)

Lemma Xml_induction (P : Xml -> Prop) :
  (forall t a x y cs, Forall P cs -> P (mkXml t a x y cs)) ->
  forall e, P e.
Proof.
  intros H. fix IH 1. intros [t a x y cs]. apply H.
  induction cs as [|c cs IHcs]; constructor; [apply IH | exact IHcs].
Qed.

Lemma build_unfold t a x y cs n :
  build (mkXml t a x y cs) n
  = let (cs', n') := build_all cs (S n) in (mkElement n t a x y cs', n').
Proof.
  cbn [build].
  match goal with
  | |- (let (_, _) := ?f cs (S n) in _) = _ =>
      assert (E : forall l m, f l m = build_all l m)
  end.
  { induction l as [|c l IH]; intros m; [reflexivity|].
    cbn. destruct (build c m) as [c' m1]. rewrite IH. reflexivity. }
  rewrite E. reflexivity.
Qed.

(** The parser's tree holds the document, in the objects from [n] up
    to the address it returns. *)
Lemma build_spec x :
  forall n, content (fst (build x n)) = x
            /\ ids (fst (build x n)) = seq n (snd (build x n) - n)
            /\ n < snd (build x n).
Proof.
  induction x as [t a tx tl cs IH] using Xml_induction. intros n.
  rewrite build_unfold.
  assert (L : forall m,
    map content (fst (build_all cs m)) = cs
    /\ flat_map ids (fst (build_all cs m))
       = seq m (snd (build_all cs m) - m)
    /\ m <= snd (build_all cs m)).
  { induction IH as [|c l Hc _ IHl]; intros m.
    - cbn. rewrite Nat.sub_diag. auto.
    - cbn [build_all]. destruct (Hc m) as (C1 & C2 & C3).
      destruct (build c m) as [c' m1]. cbn [fst snd] in *.
      destruct (IHl m1) as (L1 & L2 & L3).
      destruct (build_all l m1) as [r m2]. cbn [fst snd] in *.
      cbn [map flat_map]. rewrite C1, L1, C2, L2.
      split; [reflexivity|]. split; [|lia].
      replace (m2 - m) with ((m1 - m) + (m2 - m1)) by lia.
      rewrite seq_app. repeat f_equal. lia. }
  destruct (L (S n)) as (L1 & L2 & L3).
  destruct (build_all cs (S n)) as [cs' n']. cbn [fst snd] in *.
  rewrite ids_unfold, L2. cbn [content]. rewrite L1.
  split; [reflexivity|]. split; [|lia].
  replace (n' - n) with (S (n' - S n)) by lia. reflexivity.
Qed.

Lemma sanitize_ok sys path p :
  _sanitize_path sys path = Ok p ->
  exists s, path = PyStr s /\ p = cleaned sys s
            /\ exists_ sys p = true /\ isfile sys p = true.
Proof.
  unfold _sanitize_path. destruct path as [|s|z]; try discriminate.
  fold (cleaned sys s).
  destruct (exists_ sys (cleaned sys s)) eqn:E; [|discriminate].
  destruct (isfile sys (cleaned sys s)) eqn:F; [|discriminate].
  intros [= <-]. exists s. auto.
Qed.

Lemma import_file_spec fs path n p root n' :
  import_file fs path n = Loaded (p, root, n') ->
  _sanitize_path (files_os fs) path = Ok p
  /\ parse fs p = Some (content root)
  /\ ids root = seq n (n' - n) /\ n < n'.
Proof.
  unfold import_file.
  destruct (_sanitize_path (files_os fs) path) as [q|e]; [|discriminate].
  destruct (parse fs q) as [x|] eqn:P; [|discriminate].
  pose proof (build_spec x n) as (B1 & B2 & B3).
  destruct (build x n) as [r m]. cbn [fst snd] in *.
  intros [= <- <- <-]. rewrite P, B1. auto.
Qed.

Lemma seq_bound n k : Forall (fun i => i < n + k) (seq n k).
Proof. apply Forall_forall. intros i Hi. apply in_seq in Hi. lia. Qed.

Lemma init_spec :
  forall fs src_path dst_path self,
    __init__ fs src_path dst_path = Loaded self ->
    inst_wf self
    /\ _sanitize_path (files_os fs) dst_path = Ok (inst_dst_path self)
    /\ parse fs (inst_dst_path self) = Some (content (inst_dst_root self))
    /\ (if truthy src_path
        then exists sp s,
               _sanitize_path (files_os fs) src_path = Ok sp
               /\ inst_src_path self = Some sp
               /\ inst_src_root self = Some s
               /\ parse fs sp = Some (content s)
        else inst_src_root self = None /\ inst_src_path self = None).
Proof.
  intros fs src_path dst_path self. unfold __init__.
  destruct (truthy src_path).
  - destruct (import_file fs src_path 0) as [[[sp s] n]|e|p] eqn:S;
      try discriminate.
    destruct (import_file fs dst_path n) as [[[dp d] n']|e|p] eqn:D;
      try discriminate.
    intros [= <-].
    apply import_file_spec in S as (S1 & S2 & S3 & S4).
    apply import_file_spec in D as (D1 & D2 & D3 & D4).
    unfold inst_wf, inst_ids.
    cbn [inst_src_root inst_dst_root inst_next_id inst_dst_path inst_src_path].
    rewrite S3, D3.
    replace (seq 0 (n - 0) ++ seq n (n' - n)) with (seq 0 n')
      by (rewrite Nat.sub_0_r; replace n' with (n + (n' - n)) at 1 by lia;
          apply seq_app).
    split; [split; [apply seq_NoDup | apply (seq_bound 0 n')]|].
    split; [exact D1|]. split; [exact D2|].
    exists sp, s. auto.
  - destruct (import_file fs dst_path 0) as [[[dp d] n']|e|p] eqn:D;
      try discriminate.
    intros [= <-].
    apply import_file_spec in D as (D1 & D2 & D3 & D4).
    unfold inst_wf, inst_ids.
    cbn [inst_src_root inst_dst_root inst_next_id inst_dst_path inst_src_path
         app].
    rewrite D3, Nat.sub_0_r.
    split; [split; [apply seq_NoDup | apply (seq_bound 0 n')]|]. auto.
Qed.

(** What a constructed object holds.  When [__init__] returns, the
    destination path passed [_sanitize_path] (it exists and is a file)
    and the destination root holds the document parsed from it; with a
    source path that is neither empty nor [None] the same goes for the
    source, and with an empty one the source is not set; the objects
    of the two trees are all different. *)
Theorem init_loads_both_files :
  forall fs src_path dst_path self,
    __init__ fs src_path dst_path = Loaded self ->
    inst_wf self
    /\ _sanitize_path (files_os fs) dst_path = Ok (inst_dst_path self)
    /\ parse fs (inst_dst_path self) = Some (content (inst_dst_root self))
    /\ (if truthy src_path
        then exists sp s,
               _sanitize_path (files_os fs) src_path = Ok sp
               /\ inst_src_path self = Some sp
               /\ inst_src_root self = Some s
               /\ parse fs sp = Some (content s)
        else inst_src_root self = None /\ inst_src_path self = None).
Proof. exact init_spec. Qed.

Lemma init_loads_both_files_witness :
  exists self s,
    __init__ example_files (PyStr " 'lib.circ' ") (PyStr "project.circ")
    = Loaded self
    /\ inst_wf self
    /\ inst_dst_path self = "/work/project.circ"
    /\ inst_src_root self = Some s
    /\ content s = project [circuit "adder" [leaf "wire" []]]
    /\ content (inst_dst_root self)
       = project [leaf "main" [("name", "main")]; circuit "main" []].
Proof.
  eexists. eexists.
  split; [reflexivity|].
  split; [|repeat split; reflexivity].
  apply (init_loads_both_files example_files
           (PyStr " 'lib.circ' ") (PyStr "project.circ")).
  reflexivity.
Defined.

Lemma ready_wf self st : ready self = Some st -> inst_wf self -> wf st.
Proof.
  unfold ready, inst_wf, inst_ids, wf.
  destruct (inst_src_root self) as [s|]; [|discriminate].
  intros [= <-]. auto.
Qed.

Lemma load_source_spec :
  forall fs self xml_string,
    inst_wf self ->
    match load_source_from_string fs self xml_string with
    | Loaded self' =>
        inst_dst_root self' = inst_dst_root self
        /\ inst_dst_path self' = inst_dst_path self
        /\ exists st,
             ready self' = Some st /\ wf st
             /\ fromstring fs xml_string = Some (content (src_root st))
             /\ dst_root st = inst_dst_root self
             /\ forall i, In i (ids (src_root st)) -> ~ In i (inst_ids self)
    | ParseError text => text = xml_string /\ fromstring fs xml_string = None
    | LoadRaise _ => False
    end.
Proof.
  intros fs self xml_string [N B]. unfold load_source_from_string.
  destruct (fromstring fs xml_string) as [x|]; [|auto].
  pose proof (build_spec x (inst_next_id self)) as (B1 & B2 & B3).
  destruct (build x (inst_next_id self)) as [root n']. cbn [fst snd] in *.
  cbn [inst_dst_root inst_dst_path]. split; [reflexivity|].
  split; [reflexivity|].
  eexists. split; [reflexivity|].
  cbn [src_root dst_root inst_src_root inst_dst_root inst_next_id].
  assert (Bd : Forall (fun i => i < inst_next_id self)
                      (ids (inst_dst_root self))).
  { unfold inst_ids in B. apply Forall_app in B. apply B. }
  assert (F : forall i, In i (ids root) -> ~ In i (inst_ids self)).
  { intros i Hi Hin. rewrite B2 in Hi. apply in_seq in Hi.
    rewrite Forall_forall in B. apply B in Hin. lia. }
  split; [|rewrite B1; auto]. split; cbn [src_root dst_root next_id].
  - apply NoDup_app.
    + rewrite B2. apply seq_NoDup.
    + unfold inst_ids in N. eapply NoDup_app_remove_l, N.
    + intros i Hi Hd. apply (F i Hi). unfold inst_ids.
      apply in_or_app. right. exact Hd.
  - apply Forall_app. split.
    + rewrite B2. apply Forall_forall. intros i Hi. apply in_seq in Hi. lia.
    + eapply Forall_impl; [|exact Bd]. cbn. intros; lia.
Qed.

(** [load_source_from_string] on an object whose tree objects are all
    different: when it returns, the source root holds the document
    parsed from the text, in new objects; the destination root and
    path are the ones before; and the object is ready for
    [copy_to_dst], with all objects different.  When the parser
    raises, the error is the outcome (and the object is not changed). *)
Theorem load_source_from_string_replaces_source :
  forall fs self xml_string,
    inst_wf self ->
    match load_source_from_string fs self xml_string with
    | Loaded self' =>
        inst_dst_root self' = inst_dst_root self
        /\ inst_dst_path self' = inst_dst_path self
        /\ exists st,
             ready self' = Some st /\ wf st
             /\ fromstring fs xml_string = Some (content (src_root st))
             /\ dst_root st = inst_dst_root self
             /\ forall i, In i (ids (src_root st)) -> ~ In i (inst_ids self)
    | ParseError text => text = xml_string /\ fromstring fs xml_string = None
    | LoadRaise _ => False
    end.
Proof. exact load_source_spec. Qed.

Lemma load_source_from_string_replaces_source_witness :
  exists self,
    __init__ example_files (PyStr "") (PyStr "project.circ") = Loaded self
    /\ inst_wf self /\ ready self = None
    /\ match load_source_from_string example_files self "<project/>" with
       | Loaded self' =>
           inst_dst_root self' = inst_dst_root self
           /\ inst_dst_path self' = inst_dst_path self
           /\ exists st,
                ready self' = Some st /\ wf st
                /\ fromstring example_files "<project/>"
                   = Some (content (src_root st))
                /\ dst_root st = inst_dst_root self
                /\ forall i, In i (ids (src_root st)) ->
                             ~ In i (inst_ids self)
       | ParseError text =>
           text = "<project/>"
           /\ fromstring example_files "<project/>" = None
       | LoadRaise _ => False
       end.
Proof.
  eexists. split; [reflexivity|].
  match goal with
  | |- inst_wf ?s /\ _ =>
      assert (W : inst_wf s)
        by (apply (init_spec example_files
                     (PyStr "") (PyStr "project.circ")); reflexivity)
  end.
  split; [exact W|]. split; [reflexivity|].
  exact (load_source_from_string_replaces_source example_files _
           "<project/>" W).
Defined.



(** ** [main] after the menu *)

Lemma init_ready fs src_path dst_path self :
  __init__ fs src_path dst_path = Loaded self ->
  truthy src_path = true ->
  exists st sp,
    ready self = Some st /\ wf st
    /\ _sanitize_path (files_os fs) src_path = Ok sp
    /\ parse fs sp = Some (content (src_root st))
    /\ parse fs (inst_dst_path self) = Some (content (dst_root st))
    /\ _sanitize_path (files_os fs) dst_path = Ok (inst_dst_path self).
Proof.
  intros H T. pose proof (init_spec _ _ _ _ H) as (W & D1 & D2 & S).
  rewrite T in S. destruct S as (sp & s & S1 & S2 & S3 & S4).
  assert (R : ready self
              = Some (mkState s (inst_dst_root self) (inst_next_id self))).
  { unfold ready. rewrite S3. reflexivity. }
  eexists. exists sp. split; [exact R|].
  split; [exact (ready_wf _ _ R W)|]. auto.
Qed.

Lemma save_same_path sys st destination_file p :
  _sanitize_path sys (PyStr destination_file) = Ok p ->
  p = cleaned sys destination_file
  /\ save sys st (PyStr destination_file)
     = match write_error sys p with
       | Some msg => Raise (OSError msg)
       | None => Ok (mkWritten p (content (dst_root st)))
       end.
Proof.
  intros S. split.
  - apply sanitize_ok in S as (s & E & -> & _). congruence.
  - unfold save. rewrite S. reflexivity.
Qed.

(** The manual copy ([picked == "copy_circ"]).  When it saves, the
    source path was not empty, both files were parsed, the one circuit
    was transferred, and what is written, to the destination path
    itself, is the destination document after that transfer.  So with
    an empty source path, or a circuit name the source lacks, the
    destination file is not written. *)
Theorem main_copy_circ_saved :
  forall fs destination_file source_file circ_name w,
    main_copy_circ fs destination_file source_file circ_name = Saved w ->
    source_file <> EmptyString
    /\ exists st st',
         wf st
         /\ parse fs (cleaned (files_os fs) source_file)
            = Some (content (src_root st))
         /\ parse fs (cleaned (files_os fs) destination_file)
            = Some (content (dst_root st))
         /\ copy_to_dst st circ_name None = (Ok tt, st')
         /\ w = mkWritten (cleaned (files_os fs) destination_file)
                  (content (dst_root st')).
Proof.
  intros fs destination_file source_file circ_name w. unfold main_copy_circ.
  destruct (__init__ fs (PyStr source_file) (PyStr destination_file))
    as [self|e|p] eqn:I; try discriminate.
  destruct (String.eqb_spec source_file EmptyString) as [->|NE].
  - pose proof (init_spec _ _ _ _ I) as (_ & _ & _ & S). cbn in S.
    unfold ready. destruct S as [-> _]. discriminate.
  - assert (T : truthy (PyStr source_file) = true).
    { cbn. apply negb_true_iff, String.eqb_neq, NE. }
    destruct (init_ready _ _ _ _ I T) as (st & sp & R & W & S1 & S2 & D2 & D1).
    rewrite R.
    destruct (copy_to_dst st circ_name None) as [[[]|e] st'] eqn:C;
      [|discriminate].
    destruct (save_same_path (files_os fs) st' _ _ D1) as [Ep Es].
    rewrite Es. destruct (write_error (files_os fs) _); [discriminate|].
    intros [= <-]. split; [exact NE|]. exists st, st'.
    apply sanitize_ok in S1 as (s & Es' & -> & _). injection Es' as <-.
    rewrite <- Ep. auto.
Qed.

Lemma main_copy_circ_saved_witness :
  exists w,
    main_copy_circ example_files "project.circ" "lib.circ" "adder" = Saved w
    /\ w = mkWritten "/work/project.circ"
             (project [leaf "main" [("name", "main")]; circuit "main" [];
                       circuit "adder" [leaf "wire" []]])
    /\ main_copy_circ example_files "project.circ" "" "adder"
       = AttributeError
           "'CircuitTransfer' object has no attribute 'src_root'".
Proof.
  eexists. split; [reflexivity|].
  destruct (main_copy_circ_saved example_files "project.circ" "lib.circ"
              "adder" _ eq_refl) as (_ & st & st' & _ & _ & _ & _ & E).
  split; [reflexivity | reflexivity].
Defined.

(** The import of a list of names.  When it saves, the source was the
    master file if [master.circ] exists and the downloaded text
    otherwise, every name of the list was transferred, in order, and
    what is written, to the destination path itself, is the
    destination document after the whole batch.  So with a name that
    fails, the destination file is not written at all. *)
Theorem main_import_saved :
  forall fs remote destination_file picked w,
    main_import fs remote destination_file picked = Saved w ->
    exists st st',
      wf st
      /\ (if exists_ (files_os fs) "master.circ"
          then parse fs (cleaned (files_os fs) "master.circ")
               = Some (content (src_root st))
          else exists text, remote = Some text
                            /\ fromstring fs text
                               = Some (content (src_root st)))
      /\ parse fs (cleaned (files_os fs) destination_file)
         = Some (content (dst_root st))
      /\ copy_all st picked = (Ok tt, st')
      /\ w = mkWritten (cleaned (files_os fs) destination_file)
               (content (dst_root st')).
Proof.
  intros fs remote destination_file picked w.
  unfold main_import, open_master, main_batch.
  destruct (exists_ (files_os fs) "master.circ").
  - destruct (__init__ fs (PyStr "master.circ") (PyStr destination_file))
      as [self|e|p] eqn:I; try discriminate.
    destruct (init_ready _ _ _ _ I eq_refl)
      as (st & sp & R & W & S1 & S2 & D2 & D1).
    rewrite R.
    destruct (copy_all st picked) as [[[]|e] st'] eqn:C; [|discriminate].
    destruct (save_same_path (files_os fs) st' _ _ D1) as [Ep Es].
    rewrite Es. destruct (write_error (files_os fs) _); [discriminate|].
    intros [= <-]. exists st, st'.
    apply sanitize_ok in S1 as (s & Es' & -> & _). injection Es' as <-.
    rewrite <- Ep. auto.
  - destruct remote as [text|]; [|discriminate].
    destruct (__init__ fs (PyStr "") (PyStr destination_file))
      as [self|e|p] eqn:I; try discriminate.
    pose proof (init_spec _ _ _ _ I) as (Wi & D1 & D2 & _).
    pose proof (load_source_spec fs self text Wi) as L.
    destruct (load_source_from_string fs self text) as [self'|e|p];
      try discriminate.
    destruct L as (Ed & Ep' & st & R & W & F & Er & _).
    rewrite R.
    destruct (copy_all st picked) as [[[]|e] st'] eqn:C; [|discriminate].
    destruct (save_same_path (files_os fs) st' _ _ D1) as [Ep Es].
    rewrite Es. destruct (write_error (files_os fs) _); [discriminate|].
    intros [= <-]. exists st, st'. rewrite <- Ep, Er.
    split; [exact W|]. split; [eauto|]. auto.
Qed.

Lemma main_import_saved_witness :
  exists w,
    main_import example_files None "project.circ" ["B"; "A"] = Saved w
    /\ w = mkWritten "/work/project.circ"
             (project [leaf "main" [("name", "main")]; circuit "main" [];
                       circuit "B" []; circuit "A" []])
    /\ main_import example_files None "project.circ" ["B"; "Zzz"; "A"]
       = MainRaise (ValueError "Circuit 'Zzz' not found in source").
Proof.
  eexists. split; [reflexivity|].
  destruct (main_import_saved example_files None "project.circ" ["B"; "A"]
              _ eq_refl) as (st & st' & _ & _ & _ & _ & E).
  split; reflexivity.
Defined.

(** ** Cleaning a path *)

Lemma lstrip_all q w s :
  forallb q (list_ascii_of_string w) = true ->
  lstrip q (w ++ s)%string = lstrip q s.
Proof.
  induction w as [|c w IH]; cbn; intros H; [reflexivity|].
  apply andb_prop in H as [-> H]. exact (IH H).
Qed.

Lemma rstrip_all q w s :
  forallb q (list_ascii_of_string w) = true ->
  rstrip q (s ++ w)%string = rstrip q s.
Proof.
  intros H.
  assert (E : rstrip q w = EmptyString).
  { induction w as [|c w IH]; cbn in *; [reflexivity|].
    apply andb_prop in H as [-> H]. rewrite (IH H). reflexivity. }
  induction s as [|c s IH]; cbn [String.append rstrip]; [exact E|].
  rewrite IH. reflexivity.
Qed.

Lemma rstrip_last q s c :
  q c = false ->
  rstrip q (s ++ String c EmptyString)%string
  = (s ++ String c EmptyString)%string.
Proof.
  intros H. induction s as [|d s IH]; cbn [String.append rstrip].
  - rewrite H. reflexivity.
  - rewrite IH. destruct s; reflexivity.
Qed.

Lemma lstrip_length q s : String.length (lstrip q s) <= String.length s.
Proof.
  induction s as [|c s IH]; cbn; [lia|]. destruct (q c); cbn; lia.
Qed.

Lemma rstrip_length q s : String.length (rstrip q s) <= String.length s.
Proof.
  induction s as [|c s IH]; cbn; [lia|].
  destruct (rstrip q s); [destruct (q c)|]; cbn in *; lia.
Qed.

Lemma lstrip_same_length q s :
  String.length (lstrip q s) = String.length s -> lstrip q s = s.
Proof.
  destruct s as [|c s]; cbn; [reflexivity|].
  destruct (q c); [|reflexivity].
  pose proof (lstrip_length q s). lia.
Qed.

Lemma strip_fix_parts q p :
  rstrip q (lstrip q p) = p -> lstrip q p = p /\ rstrip q p = p.
Proof.
  intros H.
  assert (L : lstrip q p = p).
  { apply lstrip_same_length.
    pose proof (rstrip_length q (lstrip q p)) as R.
    pose proof (lstrip_length q p). rewrite H in R. lia. }
  rewrite L in H. auto.
Qed.

Lemma lstrip_head q c s : q c = false -> lstrip q (String c s) = String c s.
Proof. intros H. cbn. rewrite H. reflexivity. Qed.

Lemma lstrip_app_fix q p s :
  p <> EmptyString -> lstrip q p = p -> lstrip q (p ++ s)%string = (p ++ s)%string.
Proof.
  destruct p as [|c p]; [congruence|]. intros _. cbn.
  destruct (q c) eqn:E; [|reflexivity].
  intros H. pose proof (lstrip_length q p) as L. rewrite H in L. cbn in L. lia.
Qed.

(** Wrapped in a pair of quotes [k] that [q] strips, the path comes
    out as it went in. *)
Lemma strip_chars_quoted (q : ascii -> bool) k p :
  q k = true ->
  rstrip q (lstrip q p) = p ->
  rstrip q (lstrip q (String k (p ++ String k EmptyString)))%string = p.
Proof.
  intros K H. destruct (strip_fix_parts q p H) as [L R].
  cbn [lstrip]. rewrite K.
  destruct p as [|c p].
  - cbn. rewrite K. reflexivity.
  - rewrite (lstrip_app_fix q (String c p) _ ltac:(discriminate) L).
    rewrite (rstrip_all q (String k EmptyString) (String c p));
      [exact R | cbn; rewrite K; reflexivity].
Qed.

Lemma strip_wrapped w1 w2 k s :
  all_space w1 -> all_space w2 -> isspace k = false ->
  strip (w1 ++ String k (s ++ String k EmptyString) ++ w2)%string
  = String k (s ++ String k EmptyString).
Proof.
  intros A1 A2 K. unfold strip.
  rewrite (lstrip_all isspace w1 _ A1).
  cbn [String.append lstrip]. rewrite K.
  change (String k ((s ++ String k EmptyString) ++ w2))%string
    with (String k (s ++ String k EmptyString) ++ w2)%string.
  rewrite (rstrip_all isspace w2 _ A2).
  change (String k (s ++ String k EmptyString))%string
    with ((String k s) ++ String k EmptyString)%string.
  apply rstrip_last, K.
Qed.

(** A path given in single or in double quotes, with white space
    around, is sanitized like the bare path: [_sanitize_path] returns
    the same path or raises the same error, when the bare path has no
    white space and no quote at its ends. *)
Theorem sanitize_path_ignores_quotes :
  forall sys p w1 w2,
    bare p -> all_space w1 -> all_space w2 ->
    _sanitize_path sys (PyStr (w1 ++ "'" ++ p ++ "'" ++ w2))
    = _sanitize_path sys (PyStr p)
    /\ _sanitize_path sys
         (PyStr (w1 ++ String dquote (p ++ String dquote EmptyString) ++ w2))
       = _sanitize_path sys (PyStr p).
Proof.
  intros sys p w1 w2 (B1 & B2 & B3) A1 A2.
  assert (E0 : strip_chars (str1 dquote) (strip_chars "'" (strip p)) = p)
    by (rewrite B1, B2, B3; reflexivity).
  assert (E1 : strip_chars (str1 dquote)
                 (strip_chars "'"
                    (strip (w1 ++ "'" ++ p ++ "'" ++ w2)%string)) = p).
  { change (w1 ++ "'" ++ p ++ "'" ++ w2)%string
      with (w1 ++ String "'" (p ++ String "'" EmptyString ++ w2))%string.
    replace (w1 ++ String "'" (p ++ String "'" EmptyString ++ w2))%string
      with (w1 ++ String "'" (p ++ String "'" EmptyString) ++ w2)%string
      by (cbn [String.append]; rewrite app_assoc_str; reflexivity).
    rewrite (strip_wrapped w1 w2 "'" p A1 A2 eq_refl).
    unfold strip_chars at 2.
    rewrite (strip_chars_quoted _ "'" p eq_refl B2). exact B3. }
  assert (E2 : strip_chars (str1 dquote)
                 (strip_chars "'"
                    (strip (w1 ++ String dquote
                                    (p ++ String dquote EmptyString) ++ w2)%string))
               = p).
  { rewrite (strip_wrapped w1 w2 dquote p A1 A2 eq_refl).
    unfold strip_chars at 2. rewrite (lstrip_head _ dquote _ eq_refl).
    change (String dquote (p ++ String dquote EmptyString))%string
      with ((String dquote p) ++ String dquote EmptyString)%string.
    rewrite (rstrip_last _ (String dquote p) dquote eq_refl).
    unfold strip_chars.
    exact (strip_chars_quoted _ dquote p eq_refl B3). }
  unfold _sanitize_path. rewrite E0, E1, E2. split; reflexivity.
Qed.

Lemma sanitize_path_ignores_quotes_witness :
  bare "my project.circ" /\ all_space "  " /\ all_space " "
  /\ _sanitize_path (files_os example_files)
       (PyStr ("  " ++ "'" ++ "my project.circ" ++ "'" ++ " "))
     = _sanitize_path (files_os example_files) (PyStr "my project.circ")
  /\ _sanitize_path (files_os example_files)
       (PyStr ("  " ++ String dquote
                        ("my project.circ" ++ String dquote EmptyString)
                    ++ " "))
     = _sanitize_path (files_os example_files) (PyStr "my project.circ").
Proof.
  assert (B : bare "my project.circ") by (repeat split; reflexivity).
  split; [exact B|]. split; [reflexivity|]. split; [reflexivity|].
  exact (sanitize_path_ignores_quotes (files_os example_files)
           "my project.circ" "  " " " B eq_refl eq_refl).
Defined.

(** ** The menu *)

Section Menu_properties.

Context {leaf : Type} (max_str_digits : nat).
Implicit Types (menu root current : JSONMenu.json leaf)
  (items sub : list (string * JSONMenu.json leaf))
  (history : list (JSONMenu.json leaf)).

(** A line that is no number, or a number that is neither an entry
    nor, below the root, the number of Back, is skipped: the loop asks
    again in the same place.  At the root this includes the number
    that would be Back. *)
Theorem menu_skips_invalid_choice :
  forall choice rest history key_history items parent_key,
    (JSONMenu.str_isdigit choice = false
     \/ exists n, choice_is max_str_digits choice n
                  /\ (n = 0 \/ List.length items < n)
                  /\ (history = [] \/ n <> List.length items + 1)) ->
    JSONMenu.run_loop max_str_digits (choice :: rest) history key_history (JSONMenu.Dict items)
             parent_key
    = JSONMenu.run_loop max_str_digits rest history key_history (JSONMenu.Dict items) parent_key.
Proof.
  intros choice rest history key_history items parent_key H.
  cbn [JSONMenu.run_loop].
  destruct H as [D|(n & [D I] & R & B)]; rewrite D; [reflexivity|].
  cbn [negb]. rewrite I, length_map.
  assert (E1 : negb (JSONMenu.is_empty history)
               && (n =? List.length items + 1)%nat = false).
  { destruct B as [->|B]; [reflexivity|].
    apply andb_false_iff. right. apply Nat.eqb_neq, B. }
  assert (E2 : (1 <=? n)%nat && (n <=? List.length items)%nat = false).
  { apply andb_false_iff. destruct R as [->|R]; [left; reflexivity|].
    right. apply Nat.leb_gt, R. }
  rewrite E1, E2. reflexivity.
Qed.

Lemma getitem_nth items i k c :
  NoDup (map fst items) ->
  nth_error items i = Some (k, c) ->
  nth i (map fst items) EmptyString = k
  /\ JSONMenu.getitem items k = Some c.
Proof.
  revert i. induction items as [|[k' c'] items IH]; intros i N H.
  - destruct i; discriminate.
  - cbn [map fst] in N. apply NoDup_cons_iff in N as [N1 N2].
    destruct i as [|i]; cbn in H.
    + injection H as -> ->. cbn. rewrite String.eqb_refl. auto.
    + destruct (IH i N2 H) as [E1 E2]. cbn [map fst nth JSONMenu.getitem].
      split; [exact E1|].
      destruct (String.eqb_spec k' k) as [->|_]; [|exact E2].
      exfalso. apply N1. apply nth_error_In in H.
      apply (in_map fst) in H. exact H.
Qed.

Lemma run_loop_pick choice n rest history key_history items parent_key k c :
  choice_is max_str_digits choice (S n) ->
  NoDup (map fst items) ->
  nth_error items n = Some (k, c) ->
  JSONMenu.run_loop max_str_digits (choice :: rest) history key_history (JSONMenu.Dict items)
           parent_key
  = JSONMenu.run_loop max_str_digits rest (JSONMenu.Dict items :: history)
             (parent_key :: key_history) c (Some k).
Proof.
  intros [D I] N H. cbn [JSONMenu.run_loop]. rewrite D. cbn [negb].
  rewrite I, length_map.
  assert (L : n < List.length items)
    by (apply nth_error_Some; congruence).
  assert (E1 : negb (JSONMenu.is_empty history)
               && (S n =? List.length items + 1)%nat = false).
  { apply andb_false_iff. right. apply Nat.eqb_neq. lia. }
  assert (E2 : (1 <=? S n)%nat && (S n <=? List.length items)%nat = true).
  { apply andb_true_iff. split; [reflexivity|]. apply Nat.leb_le. lia. }
  rewrite E1, E2. cbn [Nat.sub]. rewrite Nat.sub_0_r.
  destruct (getitem_nth items n k c N H) as [-> ->]. reflexivity.
Qed.

Lemma run_loop_back choice rest h history k key_history items parent_key :
  choice_is max_str_digits choice (List.length items + 1) ->
  JSONMenu.run_loop max_str_digits (choice :: rest) (h :: history) (k :: key_history)
           (JSONMenu.Dict items) parent_key
  = JSONMenu.run_loop max_str_digits rest history key_history h k.
Proof.
  intros [D I]. cbn [JSONMenu.run_loop]. rewrite D. cbn [negb].
  rewrite I, length_map, Nat.eqb_refl. reflexivity.
Qed.

(** Back undoes a pick: in a [dict] with distinct keys, the number of
    an entry that is itself a [dict], followed by the number after that
    [dict]'s last entry, brings the loop back where it was, with the
    same stacks and the same heading. *)
Theorem menu_back_undoes_pick :
  forall pick back n rest history key_history items parent_key k sub,
    choice_is max_str_digits pick (S n) ->
    NoDup (map fst items) ->
    nth_error items n = Some (k, JSONMenu.Dict sub) ->
    choice_is max_str_digits back (List.length sub + 1) ->
    JSONMenu.run_loop max_str_digits (pick :: back :: rest) history key_history
             (JSONMenu.Dict items) parent_key
    = JSONMenu.run_loop max_str_digits rest history key_history (JSONMenu.Dict items) parent_key.
Proof.
  intros pick back n rest history key_history items parent_key k sub
         P N H B.
  rewrite (run_loop_pick pick n _ _ _ _ _ k _ P N H).
  apply run_loop_back, B.
Qed.

(** Walking a path: in a menu whose [dict]s have distinct keys, lines
    that read as the numbers of a path from the current [dict] down to
    a leaf make [run] return that leaf, having read exactly those lines
    and none of the following ones. *)
Theorem menu_follows_path :
  forall menu choices path v rest,
    distinct_keys menu ->
    Forall2 (choice_is max_str_digits) choices (map S path) ->
    follow menu (map S path) = Some (JSONMenu.Leaf v) ->
    JSONMenu.run max_str_digits menu (choices ++ rest) = (JSONMenu.Imported v, rest).
Proof.
  intros menu choices path v rest. unfold JSONMenu.run.
  generalize (@nil (JSONMenu.json leaf)) as history.
  generalize (@nil (option string)) as key_history.
  generalize (@None string) as parent_key.
  revert menu choices.
  induction path as [|n path IH];
    intros menu choices parent_key key_history history K C F.
  - inversion C; subst. cbn in F. injection F as ->.
    destruct rest; reflexivity.
  - cbn [map] in C, F. inversion C as [|c ? cs ? Hc Hcs]; subst.
    cbn [follow] in F. destruct menu as [w|items]; [discriminate|].
    destruct (nth_error items n) as [[k sub]|] eqn:E; [|discriminate].
    inversion K as [|? ND KS]; subst.
    cbn [app]. rewrite (run_loop_pick c n _ _ _ _ _ k sub Hc ND E).
    apply IH; [|exact Hcs|exact F].
    apply (KS k). exact (nth_error_In _ _ E).
Qed.

Lemma getitem_In items k c :
  JSONMenu.getitem items k = Some c -> exists k', In (k', c) items.
Proof.
  induction items as [|[k' c'] items IH]; cbn; [discriminate|].
  destruct (String.eqb k' k).
  - intros [= <-]. eauto.
  - intros H. destruct (IH H) as (k0 & Hk). eauto.
Qed.

Lemma run_loop_result root inputs :
  forall history key_history current parent_key v rest,
    Forall (submenu root) history -> submenu root current ->
    JSONMenu.run_loop max_str_digits inputs history key_history current parent_key
    = (JSONMenu.Imported v, rest) ->
    submenu root (JSONMenu.Leaf v) /\ exists used, inputs = used ++ rest.
Proof.
  induction inputs as [|choice inputs IH];
    intros history key_history current parent_key v rest Hh Hc.
  - destruct current as [w|items]; cbn; [|discriminate].
    intros [= <- <-]. split; [exact Hc | exists []; reflexivity].
  - destruct current as [w|items].
    + cbn. intros [= <- <-]. split; [exact Hc | exists []; reflexivity].
    + assert (Step : forall h kh c pk,
        Forall (submenu root) h -> submenu root c ->
        JSONMenu.run_loop max_str_digits inputs h kh c pk = (JSONMenu.Imported v, rest) ->
        submenu root (JSONMenu.Leaf v)
        /\ exists used, choice :: inputs = used ++ rest).
      { intros h kh c pk F1 F2 R.
        destruct (IH h kh c pk v rest F1 F2 R) as [S1 (used & ->)].
        split; [exact S1 | exists (choice :: used); reflexivity]. }
      cbn [JSONMenu.run_loop].
      destruct (JSONMenu.str_isdigit choice); cbn [negb];
        [|apply Step; assumption].
      destruct (JSONMenu.int max_str_digits choice) as [n|]; [|discriminate].
      destruct (negb (JSONMenu.is_empty history) && _).
      * apply Step.
        -- destruct history; [constructor | exact (Forall_inv_tail Hh)].
        -- destruct history; [exact Hc | exact (Forall_inv Hh)].
      * destruct (_ && _); [|apply Step; assumption].
        destruct (JSONMenu.getitem items _) as [next|] eqn:G; [|discriminate].
        apply Step; [constructor; assumption|].
        destruct (getitem_In _ _ _ G) as (k' & Hk).
        exact (submenu_item root items k' next Hc Hk).
Qed.

(** What [run] returns is a leaf of the menu it was given, the value
    of some entry at some depth (or the menu itself when that is no
    [dict]), and the lines left are the lines after those it read. *)
Theorem menu_returns_a_leaf_of_the_menu :
  forall menu inputs v rest,
    JSONMenu.run max_str_digits menu inputs = (JSONMenu.Imported v, rest) ->
    submenu menu (JSONMenu.Leaf v) /\ exists used, inputs = used ++ rest.
Proof.
  intros menu inputs v rest H.
  exact (run_loop_result menu inputs [] [] menu None v rest
           (Forall_nil _) (submenu_root menu) H).
Qed.

Lemma decimal_None acc s :
  existsb (fun c => negb (Py.isdigit c)) (list_ascii_of_string s) = true ->
  JSONMenu.decimal acc s = None.
Proof.
  revert acc. induction s as [|c s IH]; cbn; intros acc H; [discriminate|].
  destruct (Py.isdigit c); [|reflexivity]. apply IH. exact H.
Qed.

(** The check [choice.isdigit()] does not protect [int(choice)]: a
    line that passes it and holds a superscript digit (the only
    characters below 256 that [isdigit] accepts and [int] rejects)
    ends [run] with the [ValueError] of [int], wherever in the menu
    the loop is. *)
Theorem menu_crashes_on_superscript_digit :
  forall choice rest history key_history items parent_key,
    JSONMenu.str_isdigit choice = true ->
    existsb (fun c => negb (Py.isdigit c)) (list_ascii_of_string choice)
    = true ->
    JSONMenu.run_loop max_str_digits (choice :: rest) history key_history (JSONMenu.Dict items)
             parent_key
    = (JSONMenu.IntValueError choice, rest).
Proof.
  intros choice rest history key_history items parent_key D S.
  cbn [JSONMenu.run_loop]. rewrite D. cbn [negb].
  unfold JSONMenu.int. rewrite (decimal_None 0 choice S).
  destruct (_ && _); reflexivity.
Qed.

(** An empty menu cannot be left: on the [dict] without entries [run]
    never returns a value, whatever is typed; it ends when the input
    ends or when [int] raises. *)
Theorem menu_empty_never_returns :
  forall inputs v rest,
    JSONMenu.run max_str_digits (JSONMenu.Dict (@nil (string * JSONMenu.json leaf))) inputs
    <> (JSONMenu.Imported v, rest).
Proof.
  intros inputs v rest. unfold JSONMenu.run.
  induction inputs as [|choice inputs IH]; cbn [JSONMenu.run_loop];
    [discriminate|].
  destruct (JSONMenu.str_isdigit choice); cbn [negb]; [|exact IH].
  destruct (JSONMenu.int max_str_digits choice) as [n|]; [|discriminate].
  cbn [JSONMenu.is_empty negb andb map List.length].
  destruct n as [|n]; cbn; exact IH.
Qed.

End Menu_properties.

Lemma example_menu_distinct_keys : distinct_keys example_menu.
Proof.
  unfold example_menu.
  apply distinct_dict.
  - apply nodup_strb_NoDup. reflexivity.
  - intros k c [E|[E|[]]]; injection E as _ <-; apply distinct_dict;
      try (apply nodup_strb_NoDup; reflexivity);
      intros k' c' H; cbn in H;
      repeat (destruct H as [H|H]; [injection H as _ <-; constructor|]);
      destruct H.
Defined.

Lemma menu_skips_invalid_choice_witness :
  JSONMenu.run 4300 example_menu ["x"; "3"; "0"; ""; "2"; "1"]
  = JSONMenu.run 4300 example_menu ["3"; "0"; ""; "2"; "1"]
  /\ JSONMenu.run 4300 example_menu ["3"; "0"; ""; "2"; "1"]
     = JSONMenu.run 4300 example_menu ["0"; ""; "2"; "1"]
  /\ JSONMenu.run 4300 example_menu ["0"; ""; "2"; "1"]
     = (JSONMenu.Imported ["reg8"], []).
Proof.
  unfold JSONMenu.run, example_menu. split; [|split; [|reflexivity]].
  - apply menu_skips_invalid_choice. left. reflexivity.
  - apply menu_skips_invalid_choice. right. exists 3.
    split; [split; reflexivity|]. split; [right; cbn; lia | left; reflexivity].
Defined.

Lemma menu_back_undoes_pick_witness :
  JSONMenu.run 4300 example_menu ["1"; "3"; "2"; "1"]
  = JSONMenu.run 4300 example_menu ["2"; "1"]
  /\ JSONMenu.run 4300 example_menu ["2"; "1"] = (JSONMenu.Imported ["reg8"], []).
Proof.
  unfold JSONMenu.run, example_menu. split; [|reflexivity].
  apply (menu_back_undoes_pick 4300 "1" "3" 0 ["2"; "1"] [] [] _ None
           "Arithmetic"
           [("Adders", JSONMenu.Leaf ["half"; "full"]);
            ("Counter", JSONMenu.Leaf ["counter"])]).
  - split; reflexivity.
  - apply nodup_strb_NoDup. reflexivity.
  - reflexivity.
  - split; reflexivity.
Defined.

Lemma menu_follows_path_witness :
  JSONMenu.run 4300 example_menu (["01"; "2"] ++ ["left"; "over"])
  = (JSONMenu.Imported ["counter"], ["left"; "over"]).
Proof.
  apply (menu_follows_path 4300 example_menu ["01"; "2"] [0; 1]).
  - exact example_menu_distinct_keys.
  - repeat constructor.
  - reflexivity.
Defined.

Lemma menu_returns_a_leaf_of_the_menu_witness :
  JSONMenu.run 4300 example_menu ["2"; "2"; "1"; "1"; "7"]
  = (JSONMenu.Imported ["half"; "full"], ["7"])
  /\ submenu example_menu (JSONMenu.Leaf ["half"; "full"])
  /\ exists used, ["2"; "2"; "1"; "1"; "7"] = used ++ ["7"].
Proof.
  split; [reflexivity|].
  apply (menu_returns_a_leaf_of_the_menu 4300 example_menu
           ["2"; "2"; "1"; "1"; "7"]).
  reflexivity.
Defined.

Lemma menu_crashes_on_superscript_digit_witness :
  JSONMenu.str_isdigit superscript_two = true
  /\ JSONMenu.run 4300 example_menu [superscript_two; "1"]
     = (JSONMenu.IntValueError superscript_two, ["1"]).
Proof.
  split; [reflexivity|].
  unfold JSONMenu.run, example_menu.
  apply menu_crashes_on_superscript_digit; reflexivity.
Defined.

Lemma menu_empty_never_returns_witness :
  JSONMenu.run 4300 (JSONMenu.Dict (@nil (string * JSONMenu.json (list string))))
    ["1"; "0"; "x"] = (JSONMenu.EOFError, [])
  /\ JSONMenu.run 4300 (JSONMenu.Dict (@nil (string * JSONMenu.json (list string))))
       ["1"; "0"; "x"] <> (JSONMenu.Imported ["A"], []).
Proof.
  split; [reflexivity|]. apply menu_empty_never_returns.
Defined.
